(** * FVP compatibility shims: the harness stub set and the guarded CMSIS macros

    A shallow embedding of [ns_ambiqsuite_harness_fvp.h] (module [Harness])
    and of [cmsis.h] (module [Cmsis]), followed by the properties proved
    about them.

    The harness stubs are C functions with side effects on memory reached
    through a pointer and on the host allocator.  They are embedded in a
    small monad carrying the program state, an event trace and the
    possibility of a fault (undefined behaviour in C).  The header
    [cmsis.h] is embedded as a list of preprocessor directives run over a
    macro environment.  Both headers are read a second time token by token
    (modules [Cpp], [HarnessHeader] and [CmsisText]), with the diagnostics
    of the preprocessor collected instead of stopping at the first. *)

From Stdlib Require Import ZArith List Lia.
From stdpp Require Import base option list gmap strings fin_maps.

Set Warnings "-register-all".

Local Open Scope Z_scope.

(* ===================================================================== *)
(** * Part I: ns_ambiqsuite_harness_fvp.h                                 *)
(* ===================================================================== *)

Module Harness.

(** Addresses.  The null pointer is address 0. *)
Abbreviation ptr := Z.

Definition NULL : ptr := 0.

(** Conversion to [uint32_t], as performed by an assignment to a field of
    that type. *)
Definition uint32_t (v : Z) : Z := v mod 2 ^ 32.

(** [typedef struct { uint32_t start_time; uint32_t duration; } ns_timer_t;] *)
Record ns_timer_t : Type := mk_timer {
  start_time : Z;
  duration : Z
}.

Inductive field : Type :=
| f_start_time
| f_duration.

Definition get_field (f : field) (t : ns_timer_t) : Z :=
  match f with
  | f_start_time => start_time t
  | f_duration => duration t
  end.

Definition set_field (f : field) (v : Z) (t : ns_timer_t) : ns_timer_t :=
  match f with
  | f_start_time => {| start_time := v; duration := duration t |}
  | f_duration => {| start_time := start_time t; duration := v |}
  end.

(** ** Program state

    - [timers]: the timer records that exist in memory, by address.  They
      are owned by the callers of the harness; a record that was never
      initialised holds arbitrary field values.
    - [heap]: the state of the host allocator, i.e. the blocks handed out by
      [malloc] and not yet released, with the size requested for each.
    - [globals]: every other object of the program, by name. *)
Record State : Type := mk_state {
  timers : gmap Z ns_timer_t;
  heap : gmap Z N;
  globals : gmap string Z
}.

Definition set_timers (m : gmap Z ns_timer_t) (s : State) : State :=
  {| timers := m; heap := heap s; globals := globals s |}.

Definition set_heap (h : gmap Z N) (s : State) : State :=
  {| timers := timers s; heap := h; globals := globals s |}.

(** ** Observable events

    Every access to memory and every call into the host library is recorded,
    so that "reads nothing" and "has no side effect" are statements about
    the trace. *)
Inductive event : Type :=
| EvLoad (p : ptr) (f : field)
| EvStore (p : ptr) (f : field) (v : Z)
| EvMalloc (size : N) (p : ptr)
| EvFree (p : ptr).

(** ** The monad of stub bodies

    A computation maps a state to [None] when it faults (undefined
    behaviour: an access through a pointer to no object, or [free] of a
    pointer the allocator does not own), and otherwise to its result, the
    final state and the events it produced. *)
Definition M (A : Type) : Type := State -> option (A * State * list event).

Definition ret {A : Type} (a : A) : M A :=
  fun s => Some (a, s, []).

Definition bind {A B : Type} (m : M A) (k : A -> M B) : M B :=
  fun s =>
    match m s with
    | None => None
    | Some (a, s1, t1) =>
        match k a s1 with
        | None => None
        | Some (b, s2, t2) => Some (b, s2, t1 ++ t2)
        end
    end.

Notation "'let*' x ':=' m 'in' k" := (bind m (fun x => k))
  (at level 10, x name, m at level 100, k at level 200).
Notation "m '>>' k" := (bind m (fun _ => k))
  (at level 90, right associativity).

(** [timer->f] as an rvalue. *)
Definition load (timer : ptr) (f : field) : M Z :=
  fun s =>
    match timers s !! timer with
    | Some t => Some (get_field f t, s, [EvLoad timer f])
    | None => None
    end.

(** [timer->f = v;] *)
Definition store (timer : ptr) (f : field) (v : Z) : M unit :=
  fun s =>
    match timers s !! timer with
    | Some t =>
        Some (tt,
              set_timers (<[timer := set_field f (uint32_t v) t]> (timers s)) s,
              [EvStore timer f (uint32_t v)])
    | None => None
    end.

(** ** The host allocator

    [malloc] and [free] belong to the host C library, not to the
    repository.  What the C standard fixes is modelled here: a successful
    [malloc] returns a non-null pointer to a block distinct from every live
    block and records it; a failed one returns null and changes nothing;
    [free] of null does nothing, [free] of a live block releases it, and
    [free] of anything else is undefined.  What the standard leaves to the
    implementation, namely whether a request succeeds and where the block is
    placed, is the parameter [choose]: a choice of null, or of an address
    that is already live, is a failed allocation.

    Only the set of live blocks is followed.  Neither [errno], which a
    failing [malloc] may set, nor the contents of a block are modelled: a
    timer record that lives in an allocated block is a record of [timers]
    like any other, and the two maps are not linked.  What is proved of the
    state as a whole is therefore proved of calls and programs that leave
    the allocator alone. *)
Definition host_malloc (choose : gmap Z N -> N -> Z) (size : N) (h : gmap Z N)
  : Z * gmap Z N :=
  let p := choose h size in
  match h !! p with
  | Some _ => (NULL, h)
  | None => if bool_decide (p = NULL) then (NULL, h) else (p, <[p := size]> h)
  end.

Definition host_free (p : ptr) (h : gmap Z N) : option (gmap Z N) :=
  if bool_decide (p = NULL) then Some h
  else match h !! p with
       | Some _ => Some (delete p h)
       | None => None
       end.

Section Stubs.

Variable choose : gmap Z N -> N -> Z.

Definition malloc (size : N) : M ptr :=
  fun s =>
    let '(p, h) := host_malloc choose size (heap s) in
    Some (p, set_heap h s, [EvMalloc size p]).

Definition free (p : ptr) : M unit :=
  fun s =>
    match host_free p (heap s) with
    | Some h => Some (tt, set_heap h s, [EvFree p])
    | None => None
    end.

(** ** The stubs, in the order of the header *)

Definition ns_timer_init (timer : ptr) : M unit :=
  store timer f_start_time 0 >>
  store timer f_duration 0.

Definition ns_timer_start (timer : ptr) : M unit :=
  store timer f_start_time 0.

Definition ns_core_init : M unit := ret tt.

Definition ns_core_deinit : M unit := ret tt.

Definition ns_power_init : M unit := ret tt.

Definition ns_power_deinit : M unit := ret tt.

Definition ns_malloc (size : N) : M ptr := malloc size.

Definition ns_free (p : ptr) : M unit := free p.

Definition am_bsp_low_power_init : M unit := ret tt.

Definition am_bsp_low_power_exit : M unit := ret tt.

Definition am_hal_interrupt_master_enable : M unit := ret tt.

Definition am_hal_interrupt_master_disable : M unit := ret tt.

Definition am_hal_sysctrl_sleep : M unit := ret tt.

Definition am_hal_sysctrl_deepsleep : M unit := ret tt.

(** ** Client programs: sequences of calls to the harness *)

Inductive call : Type :=
| call_ns_timer_init (timer : ptr)
| call_ns_timer_start (timer : ptr)
| call_ns_core_init
| call_ns_core_deinit
| call_ns_power_init
| call_ns_power_deinit
| call_ns_malloc (size : N)
| call_ns_free (p : ptr)
| call_am_bsp_low_power_init
| call_am_bsp_low_power_exit
| call_am_hal_interrupt_master_enable
| call_am_hal_interrupt_master_disable
| call_am_hal_sysctrl_sleep
| call_am_hal_sysctrl_deepsleep.

(** What a call hands back: nothing for a [void] function, the pointer for
    [ns_malloc]. *)
Inductive retval : Type :=
| RVoid
| RPtr (p : ptr).

Definition void (m : M unit) : M retval := m >> ret RVoid.

Definition run (c : call) : M retval :=
  match c with
  | call_ns_timer_init timer => void (ns_timer_init timer)
  | call_ns_timer_start timer => void (ns_timer_start timer)
  | call_ns_core_init => void ns_core_init
  | call_ns_core_deinit => void ns_core_deinit
  | call_ns_power_init => void ns_power_init
  | call_ns_power_deinit => void ns_power_deinit
  | call_ns_malloc size => let* p := ns_malloc size in ret (RPtr p)
  | call_ns_free p => void (ns_free p)
  | call_am_bsp_low_power_init => void am_bsp_low_power_init
  | call_am_bsp_low_power_exit => void am_bsp_low_power_exit
  | call_am_hal_interrupt_master_enable => void am_hal_interrupt_master_enable
  | call_am_hal_interrupt_master_disable => void am_hal_interrupt_master_disable
  | call_am_hal_sysctrl_sleep => void am_hal_sysctrl_sleep
  | call_am_hal_sysctrl_deepsleep => void am_hal_sysctrl_deepsleep
  end.

Fixpoint run_all (l : list call) : M (list retval) :=
  match l with
  | [] => ret []
  | c :: l' => let* r := run c in let* rs := run_all l' in ret (r :: rs)
  end.

(** The state a call leaves, when it does not fault. *)
Definition exec (c : call) (s : State) : option State :=
  match run c s with
  | Some (_, s', _) => Some s'
  | None => None
  end.

(** Calling [c] twice in succession. *)
Definition exec_twice (c : call) (s : State) : option State :=
  match exec c s with
  | Some s' => exec c s'
  | None => None
  end.

End Stubs.

(** ** Classification of the stubs *)

(** The ten stubs with an empty body. *)
Definition is_noop (c : call) : bool :=
  match c with
  | call_ns_core_init | call_ns_core_deinit
  | call_ns_power_init | call_ns_power_deinit
  | call_am_bsp_low_power_init | call_am_bsp_low_power_exit
  | call_am_hal_interrupt_master_enable | call_am_hal_interrupt_master_disable
  | call_am_hal_sysctrl_sleep | call_am_hal_sysctrl_deepsleep => true
  | _ => false
  end.

Definition is_malloc (c : call) : bool :=
  match c with
  | call_ns_malloc _ => true
  | _ => false
  end.

(** The two stubs that forward to the host allocator. *)
Definition is_allocator (c : call) : bool :=
  match c with
  | call_ns_malloc _ | call_ns_free _ => true
  | _ => false
  end.

(** The timer record a call is given, if any. *)
Definition timer_arg (c : call) : option ptr :=
  match c with
  | call_ns_timer_init timer | call_ns_timer_start timer => Some timer
  | _ => None
  end.

Definition is_load (e : event) : bool :=
  match e with
  | EvLoad _ _ => true
  | _ => false
  end.

(** ** A concrete host, used to run the stubs on examples

    An allocator with room for four blocks of at most sixteen bytes: with
    [k] blocks live it offers the address [4096 + 16 * k], and it fails when
    four blocks are live or when more than sixteen bytes are requested. *)
Definition bump (h : gmap Z N) (n : N) : Z :=
  if bool_decide (n ≤ 16)%N && bool_decide (size h < 4)%nat
  then 4096 + 16 * Z.of_nat (size h)
  else NULL.

(** A host whose allocator always fails. *)
Definition exhausted (h : gmap Z N) (n : N) : Z := NULL.

Definition garbage_timer : ns_timer_t :=
  {| start_time := 3735928559; duration := 2989 |}.

(** A state with one uninitialised timer at address 256, another timer at
    address 512, an empty heap and one global. *)
Definition sample_state : State :=
  {| timers := <[256 := garbage_timer]>
                 (<[512 := {| start_time := 7; duration := 9 |}]> ∅);
     heap := ∅;
     globals := <["errno"%string := 0]> ∅ |}.

(** The same state once the host has handed out a block of four bytes at
    address 4096. *)
Definition sample_state_with_block : State :=
  set_heap (<[4096 := 4%N]> ∅) sample_state.

(** ** Properties a stub may or may not have *)

(** A pointer [free] accepts: null, or a block the host has handed out and
    not yet taken back. *)
Definition freeable (p : ptr) (h : gmap Z N) : Prop :=
  p = NULL ∨ is_Some (h !! p).

(** [c] returns normally, with no value, from every state. *)
Definition always_succeeds (choose : gmap Z N -> N -> Z) (c : call) : Prop :=
  ∀ s, ∃ s' tr, run choose c s = Some (RVoid, s', tr).

(** Calling [c] twice in succession leaves the state that calling it once
    leaves. *)
Definition idempotent (choose : gmap Z N -> N -> Z) (c : call) : Prop :=
  ∀ s, exec_twice choose c s = exec choose c s.

(** After any run of a client program, [ns_free] of any pointer that some
    [ns_malloc] of the run returned does not fault. *)
Definition free_of_returned_never_faults (choose : gmap Z N -> N -> Z) : Prop :=
  ∀ l s rs s' tr n p,
    run_all choose l s = Some (rs, s', tr) →
    In (EvMalloc n p) tr →
    is_Some (run choose (call_ns_free p) s').

End Harness.

(* ===================================================================== *)
(** * Part II: cmsis.h                                                    *)
(* ===================================================================== *)

Module Cmsis.

(** ** Replacement lists

    The replacement lists that occur in the header, as expressions.  The
    suffix of an integer constant is kept, since it fixes the type in which
    a shift is computed. *)
Inductive ity : Type :=
| TInt      (* no suffix *)
| TUInt     (* U *)
| TLong     (* L *)
| TULong.   (* UL *)

Inductive cexpr : Type :=
| Lit (v : Z) (t : ity)
| Ident (x : string)
| Shl (a b : cexpr)
| Paren (a : cexpr)
| CastPtr (ty : string) (a : cexpr)
| AsmVolatile (insn clobber : string).

(** A macro: [params] is [None] for an object-like macro and the parameter
    list for a function-like one; [body] is [None] for an empty replacement
    list. *)
Record macro : Type := mk_macro {
  params : option (list string);
  body : option cexpr
}.

#[global] Instance ity_eq_dec : EqDecision ity.
Proof. solve_decision. Defined.

#[global] Instance cexpr_eq_dec : EqDecision cexpr.
Proof. solve_decision. Defined.

#[global] Instance macro_eq_dec : EqDecision macro.
Proof. solve_decision. Defined.

Definition object_like (b : cexpr) : macro :=
  {| params := None; body := Some b |}.

(** ** Directives *)
Inductive directive : Type :=
| Include (file : string)
| Define (name : string) (m : macro)
| IfNDef (name : string) (group : list directive).

(** The outcome of preprocessing: the macro environment, or the diagnostic
    for a macro defined again with a different replacement list. *)
Inductive result : Type :=
| Ok (e : gmap string macro)
| Redefinition (name : string).

(** ** The header

    Lines 11 to 53: every definition under its own [#ifndef]. *)
Definition CoreDebug_def : macro :=
  object_like (Paren (CastPtr "CoreDebug_Type" (Ident "CoreDebug_BASE"))).

Definition DWT_def : macro :=
  object_like (Paren (CastPtr "DWT_Type" (Ident "DWT_BASE"))).

Definition DWT_CTRL_CYCCNTENA_Msk_def : macro :=
  object_like (Paren (Shl (Lit 1 TULong) (Ident "DWT_CTRL_CYCCNTENA_Pos"))).

Definition DWT_CTRL_CYCCNTENA_Pos_def : macro :=
  object_like (Lit 0 TUInt).

Definition CoreDebug_DEMCR_TRCENA_Msk_def : macro :=
  object_like (Paren (Shl (Lit 1 TULong) (Ident "CoreDebug_DEMCR_TRCENA_Pos"))).

Definition CoreDebug_DEMCR_TRCENA_Pos_def : macro :=
  object_like (Lit 24 TUInt).

Definition DWT_LAR_def : macro :=
  object_like (Lit 0xC5ACCE55 TUInt).

Definition DSB_def : macro :=
  {| params := Some []; body := Some (AsmVolatile "dsb" "memory") |}.

Definition ISB_def : macro :=
  {| params := Some []; body := Some (AsmVolatile "isb" "memory") |}.

(** The guarded symbols with the definitions the header gives them, in the
    order of the header. *)
Definition shim_defs : list (string * macro) :=
  [ ("CoreDebug"%string, CoreDebug_def);
    ("DWT"%string, DWT_def);
    ("DWT_CTRL_CYCCNTENA_Msk"%string, DWT_CTRL_CYCCNTENA_Msk_def);
    ("DWT_CTRL_CYCCNTENA_Pos"%string, DWT_CTRL_CYCCNTENA_Pos_def);
    ("CoreDebug_DEMCR_TRCENA_Msk"%string, CoreDebug_DEMCR_TRCENA_Msk_def);
    ("CoreDebug_DEMCR_TRCENA_Pos"%string, CoreDebug_DEMCR_TRCENA_Pos_def);
    ("DWT_LAR"%string, DWT_LAR_def);
    ("__DSB"%string, DSB_def);
    ("__ISB"%string, ISB_def) ].

(** The same as a macro environment. *)
Definition shim_env : gmap string macro := list_to_map shim_defs.

(** [#ifndef X] / [#define X ...] / [#endif] *)
Definition guarded (d : string * macro) : directive :=
  IfNDef (fst d) [Define (fst d) (snd d)].

Definition guarded_defs : list directive := map guarded shim_defs.

(** [#define CMSIS_H] *)
Definition CMSIS_H_def : macro := {| params := None; body := None |}.

(** The whole file: the include guard, the two includes, the guarded
    definitions. *)
Definition cmsis_h : list directive :=
  [ IfNDef "CMSIS_H"
      (Define "CMSIS_H" CMSIS_H_def
       :: Include "cmsis_compiler.h"
       :: Include "cmsis_gcc.h"
       :: guarded_defs) ].

Section Preprocessor.

(** The headers named by [#include] are not part of the repository: what
    preprocessing one of them does to the macro environment is a
    parameter. *)
Variable included : string -> gmap string macro -> gmap string macro.

(** [#define] of a name already defined is accepted when the definition is
    the same and is an error otherwise; [#ifndef] skips its group when the
    name is defined.  Preprocessing is not followed past the first such
    diagnostic, and replacement lists are compared as parsed; module [Cpp]
    reads the headers token by token and goes on after a diagnostic. *)
Fixpoint process_one (d : directive) (e : gmap string macro) : result :=
  match d with
  | Include file => Ok (included file e)
  | Define name m =>
      match e !! name with
      | None => Ok (<[name := m]> e)
      | Some m' => if decide (m' = m) then Ok e else Redefinition name
      end
  | IfNDef name group =>
      match e !! name with
      | Some _ => Ok e
      | None =>
          (fix process_group (ds : list directive) (e : gmap string macro) : result :=
             match ds with
             | [] => Ok e
             | d :: ds' =>
                 match process_one d e with
                 | Ok e' => process_group ds' e'
                 | Redefinition x => Redefinition x
                 end
             end) group e
      end
  end.

Fixpoint process (ds : list directive) (e : gmap string macro) : result :=
  match ds with
  | [] => Ok e
  | d :: ds' =>
      match process_one d e with
      | Ok e' => process ds' e'
      | Redefinition x => Redefinition x
      end
  end.

(** The environment in which the guards of lines 11 to 53 are tested when
    the file is read for the first time: [CMSIS_H] is defined and the two
    included headers have been read. *)
Definition at_guards (e : gmap string macro) : gmap string macro :=
  included "cmsis_gcc.h" (included "cmsis_compiler.h" (<["CMSIS_H" := CMSIS_H_def]> e)).

End Preprocessor.

Section Evaluation.

(** Width of [long] on the target: 32 on the Cortex-M cores the header is
    written for, 64 on an LP64 host.  [int] is 32 bits wide on both. *)
Variable ulong_bits : Z.

Definition bits (t : ity) : Z :=
  match t with
  | TInt | TUInt => 32
  | TLong | TULong => ulong_bits
  end.

Definition is_unsigned (t : ity) : bool :=
  match t with
  | TUInt | TULong => true
  | TInt | TLong => false
  end.

Definition representable (t : ity) (v : Z) : bool :=
  if is_unsigned t then bool_decide (0 ≤ v < 2 ^ bits t)
  else bool_decide (- 2 ^ (bits t - 1) ≤ v < 2 ^ (bits t - 1)).

(** [a << b] computed in the type [t] of [a]: undefined when [b] is
    negative or not less than the width; reduced modulo [2 ^ width] for an
    unsigned [t]; undefined on overflow or a negative [a] for a signed one. *)
Definition shl (t : ity) (a b : Z) : option (Z * ity) :=
  if bool_decide (0 ≤ b < bits t) then
    if is_unsigned t then Some (Z.shiftl a b mod 2 ^ bits t, t)
    else if bool_decide (0 ≤ a) && representable t (Z.shiftl a b)
         then Some (Z.shiftl a b, t)
         else None
  else None.

(** The value and type of an expression after macro replacement in [e].
    Macros are replaced when the expression is used, so a name is looked up
    in the environment of the use.  [fuel] bounds the depth of
    replacement. *)
Fixpoint eval (fuel : nat) (e : gmap string macro) (x : cexpr) : option (Z * ity) :=
  match fuel with
  | O => None
  | S n =>
      match x with
      | Lit v t => if representable t v then Some (v, t) else None
      | Ident name =>
          match e !! name with
          | Some {| params := None; body := Some b |} => eval n e b
          | _ => None
          end
      | Paren a => eval n e a
      | Shl a b =>
          match eval n e a, eval n e b with
          | Some (va, ta), Some (vb, _) => shl ta va vb
          | _, _ => None
          end
      | CastPtr _ _ => None
      | AsmVolatile _ _ => None
      end
  end.

End Evaluation.

(** ** Sample environments

    A stand-in for a vendor header that already defines the cycle counter's
    bit position (as bit 5) and the lock access constant. *)
Definition vendor_env : gmap string macro :=
  <["DWT_CTRL_CYCCNTENA_Pos"%string := object_like (Lit 5 TUInt)]>
    (<["DWT_LAR"%string := object_like (Lit 1 TUInt)]> ∅).

(** A stand-in for the included headers: each defines its own guard macro
    unless it is defined already. *)
Definition sample_included (file : string) (e : gmap string macro)
  : gmap string macro :=
  e ∪ {[ (String.append "INCLUDED_" file) := {| params := None; body := None |} ]}.

End Cmsis.


(* ===================================================================== *)
(** * Client programs of the harness: definitions                         *)
(* ===================================================================== *)

Module Programs.

Import Harness.

(** [c] is a timer stub called on the record at [p]. *)
Definition names_timer (p : Z) (c : call) : bool :=
  bool_decide (timer_arg c = Some p).

(** [c] is [ns_timer_init] called on the record at [p]. *)
Definition inits_timer (p : Z) (c : call) : bool :=
  match c with
  | call_ns_timer_init timer => bool_decide (timer = p)
  | _ => false
  end.

(** The record at [p] after the calls [l], if it was [t] before: a field is
    0 once a stub that stores to it has been called on [p], and is as it
    was otherwise. *)
Definition timer_after (l : list call) (p : Z) (t : ns_timer_t) : ns_timer_t :=
  {| start_time := if existsb (names_timer p) l then 0 else start_time t;
     duration := if existsb (inits_timer p) l then 0 else duration t |}.

(** An event a program made of [l] may produce: a store of 0 through a
    pointer some timer call of [l] was given, or a call into the host
    allocator.  Never a load. *)
Definition event_allowed (l : list call) (e : event) : bool :=
  match e with
  | EvLoad _ _ => false
  | EvStore p _ v => bool_decide (v = 0) && existsb (names_timer p) l
  | EvMalloc _ _ => true
  | EvFree _ => true
  end.

(** A program that calls neither [ns_malloc] nor [ns_free]. *)
Definition allocator_free (l : list call) : bool :=
  forallb (λ c, negb (is_allocator c)) l.

(** Results and final state of a run, without the trace. *)
Definition outcome {A : Type} (r : option (A * State * list event))
  : option (A * State) :=
  match r with
  | Some (a, s, _) => Some (a, s)
  | None => None
  end.

(** What a call is given to work on: the timer record its pointer argument
    designates, if it has one and the record exists, and the state of the
    host allocator for the two stubs that forward to it.  Everything else
    in the state is none of the call's business. *)
Definition view (c : call) (s : State) : option ns_timer_t * option (gmap Z N) :=
  (match timer_arg c with
   | Some p => timers s !! p
   | None => None
   end,
   if is_allocator c then Some (heap s) else None).

(** Two runs of the call [c] agree: both fault, or both return, with the
    same result and the same trace, and leave what [c] was given in the
    same condition. *)
Definition agree (c : call) (o1 o2 : option (retval * State * list event)) : Prop :=
  match o1, o2 with
  | Some (r1, s1, t1), Some (r2, s2, t2) => r1 = r2 ∧ t1 = t2 ∧ view c s1 = view c s2
  | None, None => True
  | _, _ => False
  end.

(** Every timer record named by a call of [l] exists in [s]. *)
Definition timers_exist (l : list call) (s : State) : Prop :=
  ∀ c p, In c l → timer_arg c = Some p → is_Some (timers s !! p).

End Programs.

(* ===================================================================== *)
(** * Preprocessing with diagnostics: definitions                         *)
(* ===================================================================== *)

Module Cpp.

(** A second reading of the two headers, in which a macro is what the
    preprocessor keeps of it, its parameter list and its replacement list
    as a sequence of preprocessing tokens, and in which preprocessing goes
    on after a diagnostic.  A token carries its spelling, so that [0x10U]
    and [16U] are different replacement lists. *)
Inductive token : Type :=
| Id (s : string)      (* identifier or keyword *)
| Num (s : string)     (* preprocessing number, as spelled *)
| Punct (s : string)   (* punctuator *)
| Str (s : string).    (* string literal, without its quotes *)

(** [tparams] is [None] for an object-like macro. *)
Record tmacro : Type := mk_tmacro {
  tparams : option (list string);
  tokens : list token
}.

#[global] Instance token_eq_dec : EqDecision token.
Proof. solve_decision. Defined.

#[global] Instance tmacro_eq_dec : EqDecision tmacro.
Proof. solve_decision. Defined.

(** What a header puts into a translation unit besides macros.  A
    declaration is known by the name it declares; [Replaced] stands for one
    in which that name is a macro invocation, so that what is declared, if
    anything, is up to the macro. *)
Inductive decl : Type :=
| Typedef (name : string)          (* typedef struct { ... } name; *)
| InlineFunction (name : string)   (* static inline ... name(...) { ... } *)
| Replaced (name : string)
| LinkageOpen                      (* extern "C" { *)
| LinkageClose.                    (* } *)

(** The lines of a header: directives, and the declarations between
    them. *)
Inductive line : Type :=
| HInclude (file : string)
| HDefine (name : string) (m : tmacro)
| HIfndef (name : string) (group : list line)
| HIfdef (name : string) (group : list line)
| HDecl (d : decl).

(** The state of preprocessing: the macro environment, the declarations
    passed on to the compiler so far, and the names of the macros diagnosed
    so far as redefined, in the order of the diagnostics. *)
Record hstate : Type := mk_hstate {
  henv : gmap string tmacro;
  hout : list decl;
  hdiags : list string
}.

(** The diagnostic, if any, for defining [x] as [m] in the environment
    [e]: a macro may be defined again only with the same parameters and the
    same replacement list. *)
Definition clashes (e : gmap string tmacro) (x : string) (m : tmacro) : list string :=
  match e !! x with
  | Some m' => if decide (m' = m) then [] else [x]
  | None => []
  end.

(** A declaration as it leaves the preprocessor.  The name of a function
    is followed by a parenthesis and so invokes a macro of either kind; the
    name of the type invokes an object-like macro only.  Macro replacement
    elsewhere in a declaration is not followed. *)
Definition passed (e : gmap string tmacro) (d : decl) : decl :=
  match d with
  | Typedef x =>
      match e !! x with
      | Some {| tparams := None |} => Replaced x
      | _ => d
      end
  | InlineFunction x =>
      match e !! x with
      | Some _ => Replaced x
      | None => d
      end
  | Replaced _ | LinkageOpen | LinkageClose => d
  end.

Section Reader.

(** The headers named by [#include] are not part of the repository: what
    reading one of them does to the macro environment is a parameter.
    Their declarations and their own diagnostics are not followed. *)
Variable included : string -> gmap string tmacro -> gmap string tmacro.

(** Reading one line.  A [#define] of a macro that is already defined
    otherwise is diagnosed and the new definition replaces the old one, as
    gcc does, which warns and goes on. *)
Fixpoint hread_one (l : line) (st : hstate) {struct l} : hstate :=
  let group :=
    fix group (ls : list line) (st : hstate) : hstate :=
      match ls with
      | [] => st
      | l' :: ls' => group ls' (hread_one l' st)
      end in
  match l with
  | HInclude file =>
      {| henv := included file (henv st); hout := hout st; hdiags := hdiags st |}
  | HDefine name m =>
      {| henv := <[name := m]> (henv st);
         hout := hout st;
         hdiags := hdiags st ++ clashes (henv st) name m |}
  | HIfndef name g =>
      match henv st !! name with
      | Some _ => st
      | None => group g st
      end
  | HIfdef name g =>
      match henv st !! name with
      | Some _ => group g st
      | None => st
      end
  | HDecl d =>
      {| henv := henv st;
         hout := hout st ++ [passed (henv st) d];
         hdiags := hdiags st |}
  end.

Fixpoint hread (ls : list line) (st : hstate) : hstate :=
  match ls with
  | [] => st
  | l :: ls' => hread ls' (hread_one l st)
  end.

End Reader.

(** A stand-in for the included headers: each defines its own guard macro
    unless it is defined already. *)
Definition sample_headers (file : string) (e : gmap string tmacro)
  : gmap string tmacro :=
  e ∪ {[ (String.append "INCLUDED_" file) := {| tparams := None; tokens := [] |} ]}.

End Cpp.

(* ===================================================================== *)
(** * ns_ambiqsuite_harness_fvp.h as a header: definitions                *)
(* ===================================================================== *)

Module HarnessHeader.

Import Cpp.

(** The whole file, line by line. *)
Definition harness_h : list line :=
  [ HIfndef "NS_AMBIQSUITE_HARNESS_FVP_H"
      [ HDefine "NS_AMBIQSUITE_HARNESS_FVP_H" {| tparams := None; tokens := [] |};
        HIfdef "__cplusplus" [HDecl LinkageOpen];
        HInclude "stdint.h";
        HInclude "stdio.h";
        HInclude "stdlib.h";
        HInclude "string.h";
        HDefine "ns_lp_printf" {| tparams := None; tokens := [Id "printf"] |};
        HDecl (Typedef "ns_timer_t");
        HDecl (InlineFunction "ns_timer_init");
        HDecl (InlineFunction "ns_timer_start");
        HDecl (InlineFunction "ns_core_init");
        HDecl (InlineFunction "ns_core_deinit");
        HDecl (InlineFunction "ns_power_init");
        HDecl (InlineFunction "ns_power_deinit");
        HDecl (InlineFunction "ns_malloc");
        HDecl (InlineFunction "ns_free");
        HDecl (InlineFunction "am_bsp_low_power_init");
        HDecl (InlineFunction "am_bsp_low_power_exit");
        HDecl (InlineFunction "am_hal_interrupt_master_enable");
        HDecl (InlineFunction "am_hal_interrupt_master_disable");
        HDecl (InlineFunction "am_hal_sysctrl_sleep");
        HDecl (InlineFunction "am_hal_sysctrl_deepsleep");
        HDefine "NS_PUT_IN_TCM" {| tparams := None; tokens := [] |};
        HDefine "NS_PUT_IN_ITCM" {| tparams := None; tokens := [] |};
        HDefine "NS_PUT_IN_DTCM" {| tparams := None; tokens := [] |};
        HIfdef "__cplusplus" [HDecl LinkageClose] ] ].

(** The environment in which [ns_lp_printf] is defined when the file is
    read for the first time: the guard is defined and the four system
    headers have been read. *)
Definition after_includes (included : string -> gmap string tmacro -> gmap string tmacro)
    (e : gmap string tmacro) : gmap string tmacro :=
  included "string.h"
    (included "stdlib.h"
       (included "stdio.h"
          (included "stdint.h"
             (<["NS_AMBIQSUITE_HARNESS_FVP_H" := {| tparams := None; tokens := [] |}]> e)))).

(** The linkage specification, present when [__cplusplus] is defined. *)
Definition linkage (d : decl) (e : gmap string tmacro) : list decl :=
  match e !! "__cplusplus" with
  | Some _ => [d]
  | None => []
  end.

(** The names a list of declarations defines. *)
Definition defined_names (ds : list decl) : list string :=
  omap (λ d, match d with
             | Typedef x | InlineFunction x => Some x
             | Replaced _ | LinkageOpen | LinkageClose => None
             end) ds.

(** A stand-in for the environment the real harness header leaves, in
    which [ns_lp_printf] is a different macro. *)
Definition real_harness_env : gmap string tmacro :=
  <["ns_lp_printf"%string := {| tparams := None; tokens := [Id "am_util_stdio_printf"] |}]> ∅.

End HarnessHeader.

(* ===================================================================== *)
(** * cmsis.h token by token: definitions                                 *)
(* ===================================================================== *)

Module CmsisText.

Import Cpp.





End CmsisText.

(* ===================================================================== *)
(** * Part III: properties of the harness stubs                           *)
(* ===================================================================== *)

Module HarnessFacts.

Import Harness.

(** ** Memory primitives *)

Lemma uint32_t_0 : uint32_t 0 = 0.
Proof. reflexivity. Qed.

Lemma store_some (timer : Z) (f : field) (v : Z) (s : State) (t : ns_timer_t) :
  timers s !! timer = Some t →
  store timer f v s =
    Some (tt, set_timers (<[timer := set_field f (uint32_t v) t]> (timers s)) s,
          [EvStore timer f (uint32_t v)]).
Proof. intros Ht. unfold store. rewrite Ht. reflexivity. Qed.

Lemma store_none (timer : Z) (f : field) (v : Z) (s : State) :
  timers s !! timer = None → store timer f v s = None.
Proof. intros Ht. unfold store. rewrite Ht. reflexivity. Qed.

Lemma ns_timer_init_some (timer : Z) (s : State) (t : ns_timer_t) :
  timers s !! timer = Some t →
  ns_timer_init timer s =
    Some (tt, set_timers (<[timer := {| start_time := 0; duration := 0 |}]> (timers s)) s,
          [EvStore timer f_start_time 0; EvStore timer f_duration 0]).
Proof.
  intros Ht. unfold ns_timer_init, bind.
  rewrite (store_some _ _ _ _ _ Ht).
  erewrite store_some by (simpl; apply lookup_insert_eq).
  simpl. rewrite insert_insert_eq, uint32_t_0. reflexivity.
Qed.

Lemma ns_timer_start_some (timer : Z) (s : State) (t : ns_timer_t) :
  timers s !! timer = Some t →
  ns_timer_start timer s =
    Some (tt,
          set_timers (<[timer := {| start_time := 0; duration := duration t |}]> (timers s)) s,
          [EvStore timer f_start_time 0]).
Proof.
  intros Ht. unfold ns_timer_start.
  rewrite (store_some _ _ _ _ _ Ht), uint32_t_0. reflexivity.
Qed.

(** C1: for every timer record, [ns_timer_init] followed by
    [ns_timer_start] returns normally and leaves the record with
    [start_time = 0] and [duration = 0], the value set by the
    initialisation. *)
Theorem timer_init_then_start (timer : Z) (s : State) (t : ns_timer_t) :
  timers s !! timer = Some t →
  ∃ s' tr,
    (ns_timer_init timer >> ns_timer_start timer) s = Some (tt, s', tr) ∧
    timers s' !! timer = Some {| start_time := 0; duration := 0 |}.
Proof.
  intros Ht. unfold bind at 1.
  rewrite (ns_timer_init_some _ _ _ Ht).
  erewrite ns_timer_start_some by (simpl; apply lookup_insert_eq).
  do 2 eexists. split; [reflexivity |].
  simpl. apply lookup_insert_eq.
Qed.

Lemma timer_init_then_start_witness :
  ∃ s' tr,
    (ns_timer_init 256 >> ns_timer_start 256) sample_state = Some (tt, s', tr) ∧
    timers s' !! 256 = Some {| start_time := 0; duration := 0 |}.
Proof.
  apply (timer_init_then_start 256 sample_state garbage_timer).
  reflexivity.
Defined.

(** C2: on a timer record in any state, [ns_timer_start] writes
    [start_time] (one store, of 0), leaves [duration] as it was, and
    modifies nothing else: not another timer record, not the allocator's
    state, not a global. *)
Theorem timer_start_frame (timer : Z) (s : State) (t : ns_timer_t) :
  timers s !! timer = Some t →
  ∃ s' t',
    ns_timer_start timer s = Some (tt, s', [EvStore timer f_start_time 0]) ∧
    timers s' !! timer = Some t' ∧
    start_time t' = 0 ∧
    duration t' = duration t ∧
    (∀ q, q ≠ timer → timers s' !! q = timers s !! q) ∧
    heap s' = heap s ∧
    globals s' = globals s.
Proof.
  intros Ht. rewrite (ns_timer_start_some _ _ _ Ht).
  do 2 eexists. split; [reflexivity |].
  simpl. split; [apply lookup_insert_eq |].
  repeat split.
  intros q Hq. apply lookup_insert_ne. congruence.
Qed.

Lemma timer_start_frame_witness :
  ∃ s' t',
    ns_timer_start 512 sample_state = Some (tt, s', [EvStore 512 f_start_time 0]) ∧
    timers s' !! 512 = Some t' ∧
    start_time t' = 0 ∧
    duration t' = 9 ∧
    (∀ q, q ≠ 512 → timers s' !! q = timers sample_state !! q) ∧
    heap s' = heap sample_state ∧
    globals s' = globals sample_state.
Proof.
  apply (timer_start_frame 512 sample_state {| start_time := 7; duration := 9 |}).
  reflexivity.
Defined.


(** C9: [ns_timer_start] needs no prior [ns_timer_init].  On a record with
    arbitrary contents it returns normally and leaves [start_time = 0]; its
    trace holds no load, and two records with different contents give the
    same trace and the same [start_time]. *)
Theorem timer_start_without_init (timer : Z) (s1 s2 : State) (t1 t2 : ns_timer_t) :
  timers s1 !! timer = Some t1 →
  timers s2 !! timer = Some t2 →
  ∃ s1' s2' tr,
    ns_timer_start timer s1 = Some (tt, s1', tr) ∧
    ns_timer_start timer s2 = Some (tt, s2', tr) ∧
    existsb is_load tr = false ∧
    start_time <$> timers s1' !! timer = Some 0 ∧
    start_time <$> timers s2' !! timer = Some 0.
Proof.
  intros H1 H2.
  rewrite (ns_timer_start_some _ _ _ H1), (ns_timer_start_some _ _ _ H2).
  do 3 eexists. repeat split; simpl.
  - by rewrite lookup_insert_eq.
  - by rewrite lookup_insert_eq.
Qed.

Lemma timer_start_without_init_witness :
  ∃ s1' s2' tr,
    ns_timer_start 256 sample_state = Some (tt, s1', tr) ∧
    ns_timer_start 256 sample_state_with_block = Some (tt, s2', tr) ∧
    existsb is_load tr = false ∧
    start_time <$> timers s1' !! 256 = Some 0 ∧
    start_time <$> timers s2' !! 256 = Some 0.
Proof.
  apply (timer_start_without_init 256 sample_state sample_state_with_block
           garbage_timer garbage_timer); reflexivity.
Defined.

(** ** The stubs with an empty body *)

Lemma run_noop (choose : gmap Z N → N → Z) (c : call) (s : State) :
  is_noop c = true → run choose c s = Some (RVoid, s, []).
Proof. destruct c; simpl; intros H; try discriminate H; reflexivity. Qed.

(** C3: any sequence of calls to the ten stubs with an empty body, in any
    order and of any length, returns normally from every state, hands back
    nothing, produces no event and leaves the state as it was. *)
Theorem noop_stubs_identity (choose : gmap Z N → N → Z) (l : list call) (s : State) :
  forallb is_noop l = true →
  run_all choose l s = Some (map (λ _, RVoid) l, s, []).
Proof.
  induction l as [| c l IH]; intros Hl.
  - reflexivity.
  - simpl in Hl. apply andb_prop in Hl as [Hc Hl].
    simpl. unfold bind at 1. rewrite (run_noop _ _ _ Hc).
    unfold bind at 1. rewrite (IH Hl). reflexivity.
Qed.

Lemma noop_stubs_identity_witness :
  run_all bump
    [call_am_hal_sysctrl_deepsleep; call_ns_core_init; call_ns_power_deinit;
     call_ns_core_init; call_am_bsp_low_power_exit; call_ns_power_init;
     call_am_hal_interrupt_master_disable; call_ns_core_deinit;
     call_am_hal_interrupt_master_enable; call_am_bsp_low_power_init;
     call_am_hal_sysctrl_sleep; call_am_hal_sysctrl_sleep]
    sample_state
  = Some (repeat RVoid 12, sample_state, []).
Proof.
  apply (noop_stubs_identity bump
    [call_am_hal_sysctrl_deepsleep; call_ns_core_init; call_ns_power_deinit;
     call_ns_core_init; call_am_bsp_low_power_exit; call_ns_power_init;
     call_am_hal_interrupt_master_disable; call_ns_core_deinit;
     call_am_hal_interrupt_master_enable; call_am_bsp_low_power_init;
     call_am_hal_sysctrl_sleep; call_am_hal_sysctrl_sleep] sample_state).
  reflexivity.
Defined.

(** ** Determinism *)

(** C10: every stub except [ns_malloc] is deterministic, and consults
    nothing but what it is given.  Two runs of the same call agree (same
    fate, same result, same trace, same final condition of what the call
    was given) as soon as the two initial states agree on what the call is
    given, however much they differ elsewhere and whatever the host's
    placement decisions are in each run; and from equal states the two runs
    have equal outcomes altogether. *)
Theorem stubs_deterministic (choose1 choose2 : gmap Z N → N → Z)
    (c : call) (s1 s2 : State) :
  is_malloc c = false →
  Programs.view c s1 = Programs.view c s2 →
  Programs.agree c (run choose1 c s1) (run choose2 c s2) ∧
  (s1 = s2 → run choose1 c s1 = run choose2 c s2).
Proof.
  intros Hc Hview. split.
  - destruct c; simpl in Hc; try discriminate Hc;
      unfold Programs.view in Hview; simpl in Hview;
      unfold Programs.agree, run, void, bind.
    3-6, 8-13: by simpl.
    + injection Hview as Hp.
      destruct (timers s1 !! timer) as [t1 |] eqn:H1,
               (timers s2 !! timer) as [t2 |] eqn:H2; try discriminate Hp.
      * rewrite (ns_timer_init_some _ _ _ H1), (ns_timer_init_some _ _ _ H2).
        unfold Programs.view. simpl. by rewrite !lookup_insert_eq.
      * unfold ns_timer_init, bind.
        by rewrite (store_none _ _ _ _ H1), (store_none _ _ _ _ H2).
    + injection Hview as Hp.
      destruct (timers s1 !! timer) as [t1 |] eqn:H1,
               (timers s2 !! timer) as [t2 |] eqn:H2; try discriminate Hp.
      * injection Hp as ->.
        rewrite (ns_timer_start_some _ _ _ H1), (ns_timer_start_some _ _ _ H2).
        unfold Programs.view. simpl. by rewrite !lookup_insert_eq.
      * unfold ns_timer_start.
        by rewrite (store_none _ _ _ _ H1), (store_none _ _ _ _ H2).
    + injection Hview as Hh. unfold ns_free, free. rewrite Hh.
      destruct (host_free p (heap s2)) as [h |]; [| done].
      unfold Programs.view. by simpl.
  - intros <-. destruct c; simpl in Hc; try discriminate Hc; reflexivity.
Qed.

Lemma stubs_deterministic_witness :
  Programs.agree (call_ns_timer_start 256)
    (run bump (call_ns_timer_start 256) sample_state)
    (run exhausted (call_ns_timer_start 256) sample_state_with_block) ∧
  (sample_state = sample_state_with_block →
   run bump (call_ns_timer_start 256) sample_state
   = run exhausted (call_ns_timer_start 256) sample_state_with_block).
Proof.
  apply (stubs_deterministic bump exhausted); reflexivity.
Defined.

(** [ns_malloc] is left out for a reason: its result is the host's. *)
Lemma ns_malloc_depends_on_host :
  run bump (call_ns_malloc 4) sample_state
  ≠ run exhausted (call_ns_malloc 4) sample_state.
Proof.
  intros H.
  apply (f_equal (λ o, match o with Some (r, _, _) => Some r | None => None end)) in H.
  vm_compute in H. discriminate H.
Qed.


(** ** The allocator stubs forward to the host *)

Lemma ns_free_forwards (p : Z) (s : State) :
  ns_free p s = (λ h, (tt, set_heap h s, [EvFree p])) <$> host_free p (heap s).
Proof. unfold ns_free, free. destruct (host_free p (heap s)); reflexivity. Qed.

Lemma ns_malloc_forwards (choose : gmap Z N → N → Z) (n : N) (s : State) :
  ns_malloc choose n s =
    Some ((host_malloc choose n (heap s)).1,
          set_heap (host_malloc choose n (heap s)).2 s,
          [EvMalloc n (host_malloc choose n (heap s)).1]).
Proof.
  unfold ns_malloc, malloc.
  destruct (host_malloc choose n (heap s)) as [p h]. reflexivity.
Qed.

(** ** What a call does to the state *)

Lemma exec_noop (choose : gmap Z N → N → Z) (c : call) (s : State) :
  is_noop c = true → exec choose c s = Some s.
Proof. intros Hc. unfold exec. rewrite (run_noop _ _ _ Hc). reflexivity. Qed.

Lemma exec_timer_init (choose : gmap Z N → N → Z) (timer : Z) (s : State) :
  exec choose (call_ns_timer_init timer) s =
    match timers s !! timer with
    | Some _ =>
        Some (set_timers (<[timer := {| start_time := 0; duration := 0 |}]> (timers s)) s)
    | None => None
    end.
Proof.
  unfold exec, run, void, bind.
  destruct (timers s !! timer) as [t |] eqn:Ht.
  - rewrite (ns_timer_init_some _ _ _ Ht). reflexivity.
  - unfold ns_timer_init, bind. rewrite (store_none _ _ _ _ Ht). reflexivity.
Qed.

Lemma exec_timer_start (choose : gmap Z N → N → Z) (timer : Z) (s : State) :
  exec choose (call_ns_timer_start timer) s =
    match timers s !! timer with
    | Some t =>
        Some (set_timers
                (<[timer := {| start_time := 0; duration := duration t |}]> (timers s)) s)
    | None => None
    end.
Proof.
  unfold exec, run, void, bind.
  destruct (timers s !! timer) as [t |] eqn:Ht.
  - rewrite (ns_timer_start_some _ _ _ Ht). reflexivity.
  - unfold ns_timer_start. rewrite (store_none _ _ _ _ Ht). reflexivity.
Qed.

Lemma exec_malloc (choose : gmap Z N → N → Z) (n : N) (s : State) :
  exec choose (call_ns_malloc n) s =
    Some (set_heap (host_malloc choose n (heap s)).2 s).
Proof. unfold exec, run, bind. rewrite ns_malloc_forwards. reflexivity. Qed.

Lemma exec_free (choose : gmap Z N → N → Z) (p : Z) (s : State) :
  exec choose (call_ns_free p) s = (λ h, set_heap h s) <$> host_free p (heap s).
Proof.
  unfold exec, run, void, bind. rewrite ns_free_forwards.
  destruct (host_free p (heap s)); reflexivity.
Qed.

Create Rewrite HintDb exec.

#[local] Hint Rewrite exec_timer_init exec_timer_start exec_malloc exec_free : exec.

(** Case analysis on a call that is not one of the ten empty stubs, with
    [exec] unfolded by the lemmas above. *)
Ltac exec_cases c Hnoop :=
  destruct c; simpl in Hnoop; try discriminate Hnoop; autorewrite with exec.

(** What a call to a stub that does not forward to the allocator leaves
    alone. *)
Lemma call_frame (choose : gmap Z N → N → Z) (c : call) (s s' : State) :
  is_allocator c = false →
  exec choose c s = Some s' →
  heap s' = heap s ∧
  globals s' = globals s ∧
  (∀ q, timer_arg c ≠ Some q → timers s' !! q = timers s !! q).
Proof.
  intros Hc.
  destruct (is_noop c) eqn:Hnoop.
  { rewrite (exec_noop _ _ _ Hnoop). intros [= <-]. auto. }
  exec_cases c Hnoop; try discriminate Hc.
  1, 2: destruct (timers s !! timer) as [t |]; [| discriminate];
        intros [= <-]; simpl; repeat split;
        intros q Hq; apply lookup_insert_ne; congruence.
Qed.

(** On any host, an [ns_malloc] that succeeds changes the allocator's
    state: the block it returns was not live and now is. *)
Lemma ns_malloc_success_changes_heap (choose : gmap Z N → N → Z) (n : N)
    (s s' : State) (p : Z) (tr : list event) :
  run choose (call_ns_malloc n) s = Some (RPtr p, s', tr) →
  p ≠ NULL →
  heap s !! p = None ∧ heap s' !! p = Some n.
Proof.
  unfold run, bind. rewrite ns_malloc_forwards. unfold host_malloc.
  destruct (heap s !! choose (heap s) n) as [k |] eqn:Hk; simpl.
  - intros [= <- <- _] Hp. by destruct Hp.
  - case_bool_decide; simpl; intros [= <- <- _] Hp; [by destruct Hp |].
    split; [done | apply lookup_insert_eq].
Qed.

(** On any host, [ns_free] of a block that was just released faults. *)
Lemma ns_free_twice_faults (choose : gmap Z N → N → Z) (p : Z)
    (s s' : State) (tr : list event) :
  p ≠ NULL →
  run choose (call_ns_free p) s = Some (RVoid, s', tr) →
  run choose (call_ns_free p) s' = None.
Proof.
  intros Hp. unfold run, void, bind. rewrite !ns_free_forwards. unfold host_free.
  rewrite !bool_decide_eq_false_2 by done.
  destruct (heap s !! p) as [k |]; simpl; [| discriminate].
  intros [= <- _]. simpl. by rewrite lookup_delete_eq.
Qed.

(** C4, as stated, fails: the two stubs that forward to the host allocator
    are not idempotent, and [ns_malloc] changes state the caller does not
    own.  On the sample host a second [ns_malloc 4] hands out a second
    block, and a second [ns_free] of a block faults. *)
Lemma allocator_stubs_not_idempotent :
  ¬ idempotent bump (call_ns_malloc 4) ∧
  ¬ idempotent bump (call_ns_free 4096) ∧
  ¬ (∀ s s', exec bump (call_ns_malloc 4) s = Some s' → heap s' = heap s).
Proof.
  split; [| split].
  - intros H. specialize (H sample_state).
    apply (f_equal (λ o, match o with Some s => heap s !! 4112 | None => None end)) in H.
    vm_compute in H. discriminate H.
  - intros H. specialize (H sample_state_with_block).
    vm_compute in H. discriminate H.
  - intros H. specialize (H sample_state _ eq_refl).
    apply (f_equal (λ h, h !! 4096)) in H.
    vm_compute in H. discriminate H.
Qed.

(** C4, amended: every stub other than [ns_malloc] and [ns_free] is
    idempotent: calling it twice in succession leaves the state that calling
    it once leaves (and faults if the single call does).  Such a call
    touches nothing but the timer record it is given: not the allocator's
    state, not a global, not another timer record.  Nothing is said of
    [ns_malloc] and [ns_free], which do what the host allocator does. *)
Theorem non_allocator_stubs_idempotent (choose : gmap Z N → N → Z) (c : call) :
  is_allocator c = false →
  idempotent choose c ∧
  (∀ s s', exec choose c s = Some s' →
     heap s' = heap s ∧
     globals s' = globals s ∧
     (∀ q, timer_arg c ≠ Some q → timers s' !! q = timers s !! q)).
Proof.
  intros Hc. split.
  - intros s. unfold exec_twice.
    destruct (is_noop c) eqn:Hnoop.
    { by rewrite !(exec_noop _ _ _ Hnoop). }
    exec_cases c Hnoop; try discriminate Hc.
    1, 2: destruct (timers s !! timer) as [t |] eqn:Ht; [| reflexivity];
          autorewrite with exec; simpl;
          rewrite lookup_insert_eq, insert_insert_eq; reflexivity.
  - intros s s'. by apply call_frame.
Qed.

Lemma non_allocator_stubs_idempotent_witness :
  idempotent bump (call_ns_timer_init 256) ∧
  (∀ s s', exec bump (call_ns_timer_init 256) s = Some s' →
     heap s' = heap s ∧
     globals s' = globals s ∧
     (∀ q, timer_arg (call_ns_timer_init 256) ≠ Some q →
           timers s' !! q = timers s !! q)).
Proof.
  apply (non_allocator_stubs_idempotent bump (call_ns_timer_init 256)).
  reflexivity.
Defined.

(** ** The allocator stubs *)

Lemma host_free_freeable (p : Z) (h : gmap Z N) :
  freeable p h ↔ is_Some (host_free p h).
Proof.
  unfold freeable, host_free. case_bool_decide as Hp.
  - split; [eauto | auto].
  - destruct (h !! p) as [n |].
    + split; [eauto | eauto].
    + split.
      * intros [? | [? ?]]; [contradiction | discriminate].
      * intros [? ?]. discriminate.
Qed.

Lemma host_malloc_freeable (choose : gmap Z N → N → Z) (n : N) (h : gmap Z N) :
  freeable (host_malloc choose n h).1 (host_malloc choose n h).2.
Proof.
  unfold host_malloc, freeable.
  destruct (h !! choose h n) as [k |] eqn:Hk; simpl; [by left |].
  case_bool_decide; simpl; [by left |].
  right. rewrite lookup_insert_eq. eauto.
Qed.

Lemma host_malloc_keeps (choose : gmap Z N → N → Z) (n : N) (h : gmap Z N) (p : Z) :
  freeable p h → freeable p (host_malloc choose n h).2.
Proof.
  unfold host_malloc, freeable. intros [-> | [k Hk]]; [by left |].
  destruct (h !! choose h n) as [k' |] eqn:Hc; simpl; [eauto |].
  case_bool_decide; simpl; [eauto |].
  right. rewrite lookup_insert_ne; [eauto | congruence].
Qed.

Lemma host_free_keeps (q p : Z) (h h' : gmap Z N) :
  host_free q h = Some h' → q ≠ p → freeable p h → freeable p h'.
Proof.
  unfold host_free, freeable. intros Hf Hq [-> | [k Hk]]; [by left |].
  case_bool_decide; [injection Hf as <-; eauto |].
  destruct (h !! q); [| discriminate].
  injection Hf as <-. right. rewrite lookup_delete_ne; [eauto | done].
Qed.

(** Every call other than [ns_free p] keeps [p] freeable. *)
Lemma run_keeps_freeable (choose : gmap Z N → N → Z) (c : call) (p : Z)
    (s s' : State) (r : retval) (tr : list event) :
  run choose c s = Some (r, s', tr) →
  c ≠ call_ns_free p →
  freeable p (heap s) → freeable p (heap s').
Proof.
  intros Hrun Hc Hp.
  assert (Hexec : exec choose c s = Some s') by (unfold exec; by rewrite Hrun).
  destruct (is_allocator c) eqn:Halloc.
  - destruct c; simpl in Halloc; try discriminate Halloc.
    + rewrite exec_malloc in Hexec. injection Hexec as <-.
      by apply host_malloc_keeps.
    + rewrite exec_free in Hexec.
      destruct (host_free p0 (heap s)) as [h' |] eqn:Hf; [| discriminate].
      injection Hexec as <-.
      apply (host_free_keeps p0 p (heap s)); [done | congruence | done].
  - destruct (call_frame choose c s s' Halloc Hexec) as (Hheap & _).
    by rewrite Hheap.
Qed.

Lemma run_all_keeps_freeable (choose : gmap Z N → N → Z) (l : list call) (p : Z) :
  ¬ In (call_ns_free p) l →
  ∀ s s' rs tr,
    run_all choose l s = Some (rs, s', tr) →
    freeable p (heap s) → freeable p (heap s').
Proof.
  induction l as [| c l IH]; intros Hl s s' rs tr Hrun Hp.
  - by injection Hrun as _ <- _.
  - simpl in Hrun. unfold bind at 1 in Hrun.
    destruct (run choose c s) as [[[r s1] t1] |] eqn:Hc; [| discriminate].
    unfold bind at 1 in Hrun.
    destruct (run_all choose l s1) as [[[rs1 s2] t2] |] eqn:Hrest; [| discriminate].
    injection Hrun as _ <- _.
    apply (IH (λ H, Hl (or_intror H)) s1 s2 rs1 t2 Hrest).
    apply (run_keeps_freeable choose c p s s1 r t1 Hc); [| done].
    intros ->. apply Hl. by left.
Qed.

(** C5, as stated, fails: a pointer that [ns_malloc] returned and that has
    been passed to [ns_free] since is still "previously returned by
    [ns_malloc]", and [ns_free] of it faults. *)
Lemma free_of_returned_can_fault :
  ¬ free_of_returned_never_faults bump.
Proof.
  intros H.
  edestruct (H [call_ns_malloc 4; call_ns_free 4096] sample_state) as [x Hx].
  - vm_compute. reflexivity.
  - left. reflexivity.
  - vm_compute in Hx. discriminate Hx.
Qed.

(** C5, amended: [ns_malloc] returns exactly what the host [malloc] returns
    for the same size, null included, and changes the state as the host
    does; [ns_free] does exactly what the host [free] does; and [ns_free]
    of the pointer that [ns_malloc] returned does not fault, after any
    client program that runs without fault and does not itself pass that
    pointer to [ns_free]. *)
Theorem malloc_free_forwarding (choose : gmap Z N → N → Z) (n : N) (s : State)
    (l : list call) (rs : list retval) (s' : State) (tr : list event) :
  run_all choose l (set_heap (host_malloc choose n (heap s)).2 s) = Some (rs, s', tr) →
  ¬ In (call_ns_free (host_malloc choose n (heap s)).1) l →
  ns_malloc choose n s =
    Some ((host_malloc choose n (heap s)).1,
          set_heap (host_malloc choose n (heap s)).2 s,
          [EvMalloc n (host_malloc choose n (heap s)).1]) ∧
  (∀ p s0, ns_free p s0 = (λ h, (tt, set_heap h s0, [EvFree p])) <$> host_free p (heap s0)) ∧
  is_Some (ns_free (host_malloc choose n (heap s)).1 s').
Proof.
  intros Hrun Hl.
  split; [apply ns_malloc_forwards |].
  split; [apply ns_free_forwards |].
  rewrite ns_free_forwards. apply fmap_is_Some, host_free_freeable.
  apply (run_all_keeps_freeable choose l _ Hl _ _ _ _ Hrun).
  apply host_malloc_freeable.
Qed.


Lemma malloc_free_forwarding_witness :
  ∃ rs s' tr,
    run_all bump [call_ns_malloc 8; call_ns_timer_start 256; call_ns_free 4112]
      sample_state_with_block = Some (rs, s', tr) ∧
    is_Some (ns_free 4096 s').
Proof.
  eexists _, _, _. split.
  - vm_compute. reflexivity.
  - edestruct (malloc_free_forwarding bump 4 sample_state
                 [call_ns_malloc 8; call_ns_timer_start 256; call_ns_free 4112])
      as (_ & _ & Hfree).
    + vm_compute. reflexivity.
    + simpl. intros [H | [H | [H | []]]]; discriminate H.
    + exact Hfree.
Defined.

(** ** Failure *)

(** C8, as stated, fails: [ns_free] and the two timer stubs do not succeed
    on every argument.  [ns_free] of a pointer the allocator never handed
    out, and a timer stub given the null pointer, fault. *)
Lemma free_and_timer_stubs_can_fault :
  ¬ always_succeeds bump (call_ns_free 4096) ∧
  ¬ always_succeeds bump (call_ns_timer_init NULL) ∧
  ¬ always_succeeds bump (call_ns_timer_start NULL).
Proof.
  repeat split; intros H; destruct (H sample_state) as (s' & tr & Hrun);
    vm_compute in Hrun; discriminate Hrun.
Qed.

(** C8, amended: no stub reports an error of its own.  The ten stubs with
    an empty body always return normally.  The two timer stubs return
    normally exactly when their argument points to a timer record.
    [ns_free] does what the host [free] does and faults exactly when it
    does.  [ns_malloc] never faults and hands back the host's pointer,
    which is null exactly when the host's allocation failed.  Every stub
    but [ns_malloc] that returns hands back no value. *)
Theorem stub_failure_modes (choose : gmap Z N → N → Z) (c : call) (s : State) :
  (is_noop c = true → run choose c s = Some (RVoid, s, [])) ∧
  (∀ timer, timer_arg c = Some timer →
     (is_Some (timers s !! timer) → ∃ s' tr, run choose c s = Some (RVoid, s', tr)) ∧
     (timers s !! timer = None → run choose c s = None)) ∧
  (∀ p, c = call_ns_free p →
     run choose c s = (λ h, (RVoid, set_heap h s, [EvFree p])) <$> host_free p (heap s)) ∧
  (∀ n, c = call_ns_malloc n →
     run choose c s =
       Some (RPtr (host_malloc choose n (heap s)).1,
             set_heap (host_malloc choose n (heap s)).2 s,
             [EvMalloc n (host_malloc choose n (heap s)).1])) ∧
  (∀ r s' tr, is_malloc c = false → run choose c s = Some (r, s', tr) → r = RVoid).
Proof.
  split; [apply run_noop |].
  split.
  { intros timer Hc. destruct c; simpl in Hc; try discriminate Hc;
      injection Hc as ->; (split; [intros [t Ht] | intros Ht]);
      unfold run, void, bind.
    - rewrite (ns_timer_init_some _ _ _ Ht). eauto.
    - unfold ns_timer_init, bind. by rewrite (store_none _ _ _ _ Ht).
    - rewrite (ns_timer_start_some _ _ _ Ht). eauto.
    - unfold ns_timer_start. by rewrite (store_none _ _ _ _ Ht). }
  split.
  { intros p ->. unfold run, void, bind. rewrite ns_free_forwards.
    destruct (host_free p (heap s)); reflexivity. }
  split.
  { intros n ->. unfold run, bind. rewrite ns_malloc_forwards. reflexivity. }
  intros r s' tr Hc Hrun.
  destruct c; simpl in Hc; try discriminate Hc;
    unfold run, void, bind in Hrun;
    repeat match type of Hrun with
           | context [match ?m s with _ => _ end] =>
               destruct (m s) as [[[? ?] ?] |]; try discriminate Hrun
           end;
    simpl in Hrun; by injection Hrun as <- _ _.
Qed.

Lemma stub_failure_modes_witness :
  (∃ s' tr, run bump (call_ns_timer_start 256) sample_state = Some (RVoid, s', tr)) ∧
  run bump (call_ns_timer_start NULL) sample_state = None ∧
  run bump (call_ns_free 4096) sample_state = None ∧
  run exhausted (call_ns_malloc 4) sample_state
  = Some (RPtr NULL, sample_state, [EvMalloc 4 NULL]).
Proof.
  destruct (stub_failure_modes bump (call_ns_timer_start 256) sample_state)
    as (_ & Htimer & _).
  destruct (stub_failure_modes bump (call_ns_timer_start NULL) sample_state)
    as (_ & Hnull & _).
  destruct (stub_failure_modes bump (call_ns_free 4096) sample_state)
    as (_ & _ & Hfree & _).
  destruct (stub_failure_modes exhausted (call_ns_malloc 4) sample_state)
    as (_ & _ & _ & Hmalloc & _).
  split; [| split; [| split]].
  - apply (Htimer 256 eq_refl). exists garbage_timer. reflexivity.
  - apply (Hnull NULL eq_refl). reflexivity.
  - rewrite (Hfree 4096 eq_refl). reflexivity.
  - rewrite (Hmalloc 4%N eq_refl). reflexivity.
Defined.

End HarnessFacts.

(* ===================================================================== *)
(** * Part IV: properties of the guarded macro definitions                *)
(* ===================================================================== *)

Module CmsisFacts.

Import Cmsis.

(** ** Preprocessing *)

Section Processing.

Variable included : string → gmap string macro → gmap string macro.

Lemma process_one_IfNDef (x : string) (group : list directive) (e : gmap string macro) :
  process_one included (IfNDef x group) e =
    match e !! x with
    | Some _ => Ok e
    | None => process included group e
    end.
Proof.
  simpl. destruct (e !! x); [reflexivity |].
  revert e. induction group as [| d ds IH]; intros e; [reflexivity |].
  simpl. destruct (process_one included d e); [apply IH | reflexivity].
Qed.

(** One guarded definition is a union with a singleton: the environment
    wins where it is defined. *)
Lemma process_one_guarded (d : string * macro) (e : gmap string macro) :
  process_one included (guarded d) e = Ok (e ∪ {[ d.1 := d.2 ]}).
Proof.
  destruct d as [x m]. unfold guarded. rewrite process_one_IfNDef. cbn [fst snd].
  destruct (e !! x) as [m' |] eqn:Hx.
  - f_equal. apply map_eq. intros y. rewrite lookup_union.
    destruct (decide (y = x)) as [-> | Hy].
    + rewrite Hx, lookup_singleton_eq. reflexivity.
    + rewrite lookup_singleton_ne by congruence. by destruct (e !! y).
  - cbn [process process_one]. rewrite Hx. f_equal. by apply insert_union_singleton_r.
Qed.

Lemma process_guarded_list (ds : list (string * macro)) (e : gmap string macro) :
  process included (map guarded ds) e = Ok (e ∪ list_to_map ds).
Proof.
  revert e. induction ds as [| d ds IH]; intros e.
  - simpl. f_equal. by rewrite (right_id_L ∅ (∪)).
  - simpl map. cbn [process]. rewrite process_one_guarded, IH.
    f_equal. simpl. by rewrite <- (assoc_L (∪)), <- insert_union_singleton_l.
Qed.

Lemma process_guarded_defs (e : gmap string macro) :
  process included guarded_defs e = Ok (e ∪ shim_env).
Proof. apply process_guarded_list. Qed.

Lemma process_cmsis_h (e : gmap string macro) :
  process included cmsis_h e =
    match e !! "CMSIS_H" with
    | Some _ => Ok e
    | None => Ok (at_guards included e ∪ shim_env)
    end.
Proof.
  unfold cmsis_h. cbn [process]. rewrite process_one_IfNDef.
  destruct (e !! "CMSIS_H") as [m |] eqn:Hg; [reflexivity |].
  cbn [process process_one]. rewrite Hg, process_guarded_defs. reflexivity.
Qed.

Lemma shim_names_NoDup : NoDup shim_defs.*1.
Proof. apply (bool_decide_unpack _). vm_compute. exact I. Qed.

Lemma shim_env_lookup (x : string) (m : macro) :
  In (x, m) shim_defs → shim_env !! x = Some m.
Proof.
  intros Hin. apply elem_of_list_to_map_1; [apply shim_names_NoDup |].
  by apply list_elem_of_In.
Qed.

End Processing.


(** ** Define-if-absent *)

Section DefineIfAbsent.

Variable included : string → gmap string macro → gmap string macro.

(** The included headers may add definitions; they are assumed not to
    remove or change one. *)
Hypothesis included_keeps : ∀ file e, e ⊆ included file e.

Lemma at_guards_defines_CMSIS_H (e : gmap string macro) :
  <["CMSIS_H" := CMSIS_H_def]> e ⊆ at_guards included e.
Proof.
  unfold at_guards.
  etransitivity; [apply included_keeps |]. apply included_keeps.
Qed.

Lemma at_guards_keeps (e : gmap string macro) :
  e !! "CMSIS_H" = None → e ⊆ at_guards included e.
Proof.
  intros Hg. etransitivity; [| apply at_guards_defines_CMSIS_H].
  by apply insert_subseteq.
Qed.

(** C6: reading [cmsis.h] in any macro environment succeeds, with no
    redefinition error; every macro defined before keeps its definition;
    when the file is read for the first time, each of the nine guarded
    symbols [CoreDebug], [DWT], [DWT_CTRL_CYCCNTENA_Msk],
    [DWT_CTRL_CYCCNTENA_Pos], [CoreDebug_DEMCR_TRCENA_Msk],
    [CoreDebug_DEMCR_TRCENA_Pos], [DWT_LAR], [__DSB] and [__ISB] ends up
    with the definition it had when its guard was tested, or, if it had
    none, with the replacement list the header gives it; and reading the
    file a second time succeeds and changes nothing. *)
Theorem cmsis_h_define_if_absent (e : gmap string macro) :
  ∃ e',
    process included cmsis_h e = Ok e' ∧
    (∀ x m, e !! x = Some m → e' !! x = Some m) ∧
    (e !! "CMSIS_H" = None →
       e' !! "CoreDebug"
       = Some (default
                 {| params := None;
                    body := Some (Paren (CastPtr "CoreDebug_Type" (Ident "CoreDebug_BASE"))) |}
                 (at_guards included e !! "CoreDebug")) ∧
       e' !! "DWT"
       = Some (default
                 {| params := None;
                    body := Some (Paren (CastPtr "DWT_Type" (Ident "DWT_BASE"))) |}
                 (at_guards included e !! "DWT")) ∧
       e' !! "DWT_CTRL_CYCCNTENA_Msk"
       = Some (default
                 {| params := None;
                    body := Some (Paren (Shl (Lit 1 TULong)
                                             (Ident "DWT_CTRL_CYCCNTENA_Pos"))) |}
                 (at_guards included e !! "DWT_CTRL_CYCCNTENA_Msk")) ∧
       e' !! "DWT_CTRL_CYCCNTENA_Pos"
       = Some (default
                 {| params := None; body := Some (Lit 0 TUInt) |}
                 (at_guards included e !! "DWT_CTRL_CYCCNTENA_Pos")) ∧
       e' !! "CoreDebug_DEMCR_TRCENA_Msk"
       = Some (default
                 {| params := None;
                    body := Some (Paren (Shl (Lit 1 TULong)
                                             (Ident "CoreDebug_DEMCR_TRCENA_Pos"))) |}
                 (at_guards included e !! "CoreDebug_DEMCR_TRCENA_Msk")) ∧
       e' !! "CoreDebug_DEMCR_TRCENA_Pos"
       = Some (default
                 {| params := None; body := Some (Lit 24 TUInt) |}
                 (at_guards included e !! "CoreDebug_DEMCR_TRCENA_Pos")) ∧
       e' !! "DWT_LAR"
       = Some (default
                 {| params := None; body := Some (Lit 0xC5ACCE55 TUInt) |}
                 (at_guards included e !! "DWT_LAR")) ∧
       e' !! "__DSB"
       = Some (default
                 {| params := Some []; body := Some (AsmVolatile "dsb" "memory") |}
                 (at_guards included e !! "__DSB")) ∧
       e' !! "__ISB"
       = Some (default
                 {| params := Some []; body := Some (AsmVolatile "isb" "memory") |}
                 (at_guards included e !! "__ISB"))) ∧
    process included cmsis_h e' = Ok e'.
Proof.
  rewrite process_cmsis_h.
  destruct (e !! "CMSIS_H") as [g |] eqn:Hg.
  - exists e. split; [reflexivity |]. split; [auto |].
    split; [discriminate |].
    by rewrite process_cmsis_h, Hg.
  - exists (at_guards included e ∪ shim_env).
    split; [reflexivity |]. split; [| split].
    + intros x m Hx. apply lookup_union_Some_l.
      by apply (lookup_weaken e), at_guards_keeps.
    + intros _.
      assert (Hshim : ∀ x m, In (x, m) shim_defs →
                (at_guards included e ∪ shim_env) !! x
                = Some (default m (at_guards included e !! x))).
      { intros x m Hin. rewrite lookup_union, (shim_env_lookup x m Hin).
        by destruct (at_guards included e !! x). }
      repeat split; apply Hshim; simpl; tauto.
    + rewrite process_cmsis_h.
      erewrite lookup_union_Some_l; [reflexivity |].
      apply (lookup_weaken (<["CMSIS_H" := CMSIS_H_def]> e));
        [apply lookup_insert_eq | apply at_guards_defines_CMSIS_H].
Qed.

End DefineIfAbsent.

Lemma sample_included_keeps (file : string) (e : gmap string macro) :
  e ⊆ sample_included file e.
Proof. apply map_union_subseteq_l. Qed.

Lemma cmsis_h_define_if_absent_witness :
  ∃ e',
    process sample_included cmsis_h vendor_env = Ok e' ∧
    (∀ x m, vendor_env !! x = Some m → e' !! x = Some m) ∧
    (vendor_env !! "CMSIS_H" = None →
       e' !! "CoreDebug"
       = Some (default
                 {| params := None;
                    body := Some (Paren (CastPtr "CoreDebug_Type" (Ident "CoreDebug_BASE"))) |}
                 (at_guards sample_included vendor_env !! "CoreDebug")) ∧
       e' !! "DWT"
       = Some (default
                 {| params := None;
                    body := Some (Paren (CastPtr "DWT_Type" (Ident "DWT_BASE"))) |}
                 (at_guards sample_included vendor_env !! "DWT")) ∧
       e' !! "DWT_CTRL_CYCCNTENA_Msk"
       = Some (default
                 {| params := None;
                    body := Some (Paren (Shl (Lit 1 TULong)
                                             (Ident "DWT_CTRL_CYCCNTENA_Pos"))) |}
                 (at_guards sample_included vendor_env !! "DWT_CTRL_CYCCNTENA_Msk")) ∧
       e' !! "DWT_CTRL_CYCCNTENA_Pos"
       = Some (default
                 {| params := None; body := Some (Lit 0 TUInt) |}
                 (at_guards sample_included vendor_env !! "DWT_CTRL_CYCCNTENA_Pos")) ∧
       e' !! "CoreDebug_DEMCR_TRCENA_Msk"
       = Some (default
                 {| params := None;
                    body := Some (Paren (Shl (Lit 1 TULong)
                                             (Ident "CoreDebug_DEMCR_TRCENA_Pos"))) |}
                 (at_guards sample_included vendor_env !! "CoreDebug_DEMCR_TRCENA_Msk")) ∧
       e' !! "CoreDebug_DEMCR_TRCENA_Pos"
       = Some (default
                 {| params := None; body := Some (Lit 24 TUInt) |}
                 (at_guards sample_included vendor_env !! "CoreDebug_DEMCR_TRCENA_Pos")) ∧
       e' !! "DWT_LAR"
       = Some (default
                 {| params := None; body := Some (Lit 0xC5ACCE55 TUInt) |}
                 (at_guards sample_included vendor_env !! "DWT_LAR")) ∧
       e' !! "__DSB"
       = Some (default
                 {| params := Some []; body := Some (AsmVolatile "dsb" "memory") |}
                 (at_guards sample_included vendor_env !! "__DSB")) ∧
       e' !! "__ISB"
       = Some (default
                 {| params := Some []; body := Some (AsmVolatile "isb" "memory") |}
                 (at_guards sample_included vendor_env !! "__ISB"))) ∧
    process sample_included cmsis_h e' = Ok e'.
Proof.
  apply (cmsis_h_define_if_absent sample_included sample_included_keeps vendor_env).
Defined.

(** A vendor definition made before the header is read survives it, and a
    symbol the vendor left undefined gets the header's definition. *)
Example vendor_definitions_survive :
  ∃ e',
    process sample_included cmsis_h vendor_env = Ok e' ∧
    e' !! "DWT_LAR" = Some (object_like (Lit 1 TUInt)) ∧
    e' !! "DWT_CTRL_CYCCNTENA_Pos" = Some (object_like (Lit 5 TUInt)) ∧
    e' !! "CoreDebug_DEMCR_TRCENA_Pos" = Some CoreDebug_DEMCR_TRCENA_Pos_def ∧
    e' !! "__ISB" = Some ISB_def.
Proof.
  eexists. split; [rewrite process_cmsis_h; reflexivity |].
  repeat split; vm_compute; reflexivity.
Qed.

(** Without its guard a definition would clash with a different earlier
    one: the guards are what rules the error out. *)
Example unguarded_define_clashes :
  process sample_included [Define "DWT_LAR" DWT_LAR_def] vendor_env
  = Redefinition "DWT_LAR".
Proof. vm_compute. reflexivity. Qed.


(** ** The masks *)

Section Masks.

Variable ulong_bits : Z.

Hypothesis ulong_bits_ge_32 : 32 ≤ ulong_bits.






End Masks.


(** With the vendor's position 5 the header's mask is 32; the other mask
    uses the header's own position 24. *)
Example vendor_position_gives_mask_32 :
  ∃ e',
    process sample_included cmsis_h vendor_env = Ok e' ∧
    eval 32 5 e' (Ident "DWT_CTRL_CYCCNTENA_Msk") = Some (32, TULong) ∧
    eval 32 5 e' (Ident "CoreDebug_DEMCR_TRCENA_Msk") = Some (0x1000000, TULong) ∧
    eval 32 4 e' (Ident "DWT_CTRL_CYCCNTENA_Msk") = None.
Proof.
  eexists. split; [rewrite process_cmsis_h; reflexivity |].
  repeat split; vm_compute; reflexivity.
Qed.

(** A position that [unsigned long] does not have gives no value: the
    shift is undefined. *)
Example position_out_of_range :
  eval 32 5
    (<["DWT_CTRL_CYCCNTENA_Pos" := object_like (Lit 32 TUInt)]> shim_env)
    (Ident "DWT_CTRL_CYCCNTENA_Msk") = None.
Proof. vm_compute. reflexivity. Qed.

End CmsisFacts.

(* ===================================================================== *)
(** * Part V: client programs                                             *)
(* ===================================================================== *)

Module ProgramFacts.

Import Harness Programs.

(** ** One call *)

(** A call to a stub that does not forward to the host allocator, in
    closed form. *)
Lemma run_non_allocator (choose : gmap Z N → N → Z) (c : call) (s : State) :
  is_allocator c = false →
  outcome (run choose c s) =
    match timer_arg c with
    | None => Some (RVoid, s)
    | Some p =>
        match timers s !! p with
        | Some t => Some (RVoid, set_timers (<[p := timer_after [c] p t]> (timers s)) s)
        | None => None
        end
    end.
Proof.
  intros Hc. destruct c; simpl in Hc; try discriminate Hc; try reflexivity.
  - unfold run, void, bind. cbn [timer_arg].
    destruct (timers s !! timer) as [t |] eqn:Ht.
    + rewrite (HarnessFacts.ns_timer_init_some _ _ _ Ht). simpl.
      unfold timer_after, names_timer, inits_timer. simpl.
      by rewrite !bool_decide_eq_true_2.
    + unfold ns_timer_init, bind.
      by rewrite (HarnessFacts.store_none _ _ _ _ Ht).
  - unfold run, void, bind. cbn [timer_arg].
    destruct (timers s !! timer) as [t |] eqn:Ht.
    + rewrite (HarnessFacts.ns_timer_start_some _ _ _ Ht). simpl.
      unfold timer_after, names_timer, inits_timer. simpl.
      by rewrite !bool_decide_eq_true_2.
    + unfold ns_timer_start.
      by rewrite (HarnessFacts.store_none _ _ _ _ Ht).
Qed.

Lemma timer_after_nil (p : Z) (t : ns_timer_t) : timer_after [] p t = t.
Proof. by destruct t. Qed.

Lemma timer_after_cons (c : call) (l : list call) (p : Z) (t : ns_timer_t) :
  timer_after (c :: l) p t = timer_after l p (timer_after [c] p t).
Proof.
  unfold timer_after. simpl. rewrite !orb_false_r.
  destruct (names_timer p c), (inits_timer p c),
    (existsb (names_timer p) l), (existsb (inits_timer p) l); reflexivity.
Qed.

Lemma timer_after_other (c : call) (p : Z) (t : ns_timer_t) :
  timer_arg c ≠ Some p → timer_after [c] p t = t.
Proof.
  intros Hc. unfold timer_after, names_timer. simpl.
  rewrite bool_decide_eq_false_2 by done.
  assert (inits_timer p c = false) as ->.
  { destruct c; try reflexivity. simpl in *.
    apply bool_decide_eq_false_2. congruence. }
  by destruct t.
Qed.

(** What one call to a stub that does not forward to the allocator does to
    the state. *)
Lemma run_timers (choose : gmap Z N → N → Z) (c : call) (s s' : State)
    (r : retval) (tr : list event) :
  is_allocator c = false →
  run choose c s = Some (r, s', tr) →
  (∀ p, timers s' !! p = timer_after [c] p <$> timers s !! p) ∧
  heap s' = heap s ∧ globals s' = globals s.
Proof.
  intros Halloc Hrun.
  assert (Hout : outcome (run choose c s) = Some (r, s')) by (by rewrite Hrun).
  rewrite (run_non_allocator _ _ _ Halloc) in Hout.
  destruct (timer_arg c) as [q |] eqn:Hq.
  - destruct (timers s !! q) as [t |] eqn:Ht; [| discriminate Hout].
    injection Hout as _ <-. split; [| done]. intros p. simpl.
    destruct (decide (q = p)) as [-> | Hne].
    + by rewrite lookup_insert_eq, Ht.
    + rewrite lookup_insert_ne by done.
      destruct (timers s !! p) as [t' |]; [| done].
      simpl. rewrite timer_after_other; [done | congruence].
  - injection Hout as _ <-. split; [| done]. intros p.
    destruct (timers s !! p) as [t' |]; [| done].
    simpl. rewrite timer_after_other; [done | congruence].
Qed.

(** Splitting the run of a non-empty program. *)
Lemma run_all_cons_inv (choose : gmap Z N → N → Z) (c : call) (l : list call)
    (s s' : State) (rs : list retval) (tr : list event) :
  run_all choose (c :: l) s = Some (rs, s', tr) →
  ∃ r s1 t1 rs' t2,
    run choose c s = Some (r, s1, t1) ∧
    run_all choose l s1 = Some (rs', s', t2) ∧
    rs = r :: rs' ∧ tr = t1 ++ t2.
Proof.
  simpl. unfold bind at 1.
  destruct (run choose c s) as [[[r s1] t1] |] eqn:Hc; [| discriminate].
  unfold bind at 1.
  destruct (run_all choose l s1) as [[[rs' s2] t2] |] eqn:Hl; [| discriminate].
  simpl. rewrite app_nil_r. intros [= <- <- <-].
  by exists r, s1, t1, rs', t2.
Qed.

(** X1: a client program that calls neither [ns_malloc] nor [ns_free]
    and returns leaves every timer record in place, creates none, and
    changes nothing else in the state.  Each record holds what
    [timer_after] says: [start_time] is 0 if the program called a timer
    stub on it and unchanged otherwise, [duration] is 0 if the program
    called [ns_timer_init] on it and unchanged otherwise.  The mock timer
    never holds a measurement. *)
Theorem timers_after_program (choose : gmap Z N → N → Z) (l : list call)
    (s s' : State) (rs : list retval) (tr : list event) :
  allocator_free l = true →
  run_all choose l s = Some (rs, s', tr) →
  (∀ p, timers s' !! p = timer_after l p <$> timers s !! p) ∧
  heap s' = heap s ∧ globals s' = globals s.
Proof.
  revert s rs tr. induction l as [| c l IH]; intros s rs tr Hl Hrun.
  - injection Hrun as _ <- _. split; [| done]. intros p.
    destruct (timers s !! p) as [t |]; [| done]. simpl. by rewrite timer_after_nil.
  - apply run_all_cons_inv in Hrun as (r & s1 & t1 & rs' & t2 & Hc & Hrest & _ & _).
    simpl in Hl. apply andb_prop in Hl as [Halloc Hl].
    apply negb_true_iff in Halloc.
    destruct (run_timers _ _ _ _ _ _ Halloc Hc) as (Ht1 & Hh1 & Hg1).
    destruct (IH _ _ _ Hl Hrest) as (Ht & Hh & Hg).
    split; [| split; congruence]. intros p.
    rewrite Ht, Ht1.
    destruct (timers s !! p) as [t |]; [| done].
    apply (f_equal Some). symmetry. apply timer_after_cons.
Qed.

Lemma timers_after_program_witness :
  ∃ rs s' tr,
    run_all bump [call_ns_timer_start 256; call_ns_timer_init 512;
                  call_ns_core_init; call_ns_timer_start 512] sample_state
    = Some (rs, s', tr) ∧
    timers s' !! 256 = Some {| start_time := 0; duration := 2989 |} ∧
    timers s' !! 512 = Some {| start_time := 0; duration := 0 |} ∧
    timers s' !! 768 = None ∧
    heap s' = heap sample_state ∧ globals s' = globals sample_state.
Proof.
  destruct (run_all bump [call_ns_timer_start 256; call_ns_timer_init 512;
                          call_ns_core_init; call_ns_timer_start 512] sample_state)
    as [[[rs s'] tr] |] eqn:Hrun; [| vm_compute in Hrun; discriminate Hrun].
  exists rs, s', tr. split; [reflexivity |].
  destruct (timers_after_program bump
              [call_ns_timer_start 256; call_ns_timer_init 512;
               call_ns_core_init; call_ns_timer_start 512]
              sample_state s' rs tr eq_refl Hrun)
    as (Ht & Hh & Hg).
  rewrite !Ht. repeat split; assumption.
Defined.

(** ** When a program returns *)

Lemma run_non_allocator_returns (choose : gmap Z N → N → Z) (c : call) (s : State) :
  is_allocator c = false →
  is_Some (run choose c s) ↔ ∀ p, timer_arg c = Some p → is_Some (timers s !! p).
Proof.
  intros Hc.
  assert (Hout : is_Some (run choose c s) ↔ is_Some (outcome (run choose c s))).
  { destruct (run choose c s) as [[[r s1] t1] |]; simpl; split; eauto;
      intros [? ?]; discriminate. }
  rewrite Hout, (run_non_allocator _ _ _ Hc).
  destruct (timer_arg c) as [q |].
  - destruct (timers s !! q) as [t |] eqn:Ht.
    + split; [| eauto]. intros _ p [= <-]. rewrite Ht. eauto.
    + split; [intros [? ?]; discriminate |].
      intros H. destruct (H q eq_refl) as [t Ht']. congruence.
  - split; [| eauto]. intros _ p Hp. discriminate Hp.
Qed.

(** X2: a program that calls neither [ns_malloc] nor [ns_free] returns
    exactly when every timer record it names exists when the program
    starts.  Its only possible fault is a timer stub called on a pointer to
    no record, and whether that occurs can be read off the initial
    state. *)
Theorem program_returns_iff_timers_exist (choose : gmap Z N → N → Z)
    (l : list call) (s : State) :
  allocator_free l = true →
  is_Some (run_all choose l s) ↔ timers_exist l s.
Proof.
  revert s. induction l as [| c l IH]; intros s Hl.
  - split; [intros _ c p [] | by eexists].
  - simpl in Hl. apply andb_prop in Hl as [Halloc Hl].
    apply negb_true_iff in Halloc.
    split.
    + intros [[[rs s'] tr] Hrun] c' p Hin Hp.
      apply run_all_cons_inv in Hrun as (r & s1 & t1 & rs' & t2 & Hc & Hrest & _ & _).
      destruct Hin as [-> | Hin].
      * apply (run_non_allocator_returns choose c' s Halloc); [by rewrite Hc | done].
      * destruct (run_timers _ _ _ _ _ _ Halloc Hc) as (Ht1 & _).
        assert (H1 : is_Some (timers s1 !! p)).
        { apply (proj1 (IH s1 Hl) (ex_intro _ _ Hrest) c' p Hin Hp). }
        rewrite Ht1 in H1. by apply fmap_is_Some in H1.
    + intros Hex.
      assert (Hrun : is_Some (run choose c s)).
      { apply (run_non_allocator_returns _ _ _ Halloc).
        intros p Hp. apply (Hex c p); [by left | done]. }
      destruct Hrun as [[[r s1] t1] Hrun].
      destruct (run_timers _ _ _ _ _ _ Halloc Hrun) as (Ht1 & _).
      destruct (proj2 (IH s1 Hl)) as [[[rs s2] t2] Hrest].
      { intros c' p Hin Hp. rewrite Ht1. apply fmap_is_Some.
        apply (Hex c' p); [by right | done]. }
      simpl. unfold bind at 1. rewrite Hrun. unfold bind at 1. rewrite Hrest.
      by eexists.
Qed.

Lemma program_returns_iff_timers_exist_witness :
  is_Some (run_all bump [call_ns_timer_init 512; call_am_hal_sysctrl_sleep;
                         call_ns_timer_start 256] sample_state) ∧
  run_all bump [call_ns_core_init; call_ns_timer_start 768] sample_state = None.
Proof.
  split.
  - apply (proj2 (program_returns_iff_timers_exist bump
             [call_ns_timer_init 512; call_am_hal_sysctrl_sleep; call_ns_timer_start 256]
             sample_state eq_refl)).
    intros c p [<- | [<- | [<- | []]]] [= <-]; by eexists.
  - destruct (run_all bump [call_ns_core_init; call_ns_timer_start 768] sample_state)
      as [[[rs s'] tr] |] eqn:Hrun; [| reflexivity].
    destruct (proj1 (program_returns_iff_timers_exist bump
                       [call_ns_core_init; call_ns_timer_start 768] sample_state eq_refl)
                (ex_intro _ _ Hrun) (call_ns_timer_start 768) 768) as [t Ht].
    + right. by left.
    + reflexivity.
    + vm_compute in Ht. discriminate Ht.
Defined.

(** ** What a program does to memory *)

Lemma event_allowed_cons (c : call) (l : list call) (e : event) :
  event_allowed l e = true → event_allowed (c :: l) e = true.
Proof.
  destruct e; simpl; try done.
  intros [Hv Hl]%andb_prop. by rewrite Hv, Hl, orb_true_r.
Qed.

Lemma event_allowed_head (c : call) (l : list call) (e : event) :
  event_allowed [c] e = true → event_allowed (c :: l) e = true.
Proof.
  destruct e; simpl; try done.
  rewrite orb_false_r. intros [Hv Hc]%andb_prop. by rewrite Hv, Hc.
Qed.

Lemma run_events (choose : gmap Z N → N → Z) (c : call) (s s' : State)
    (r : retval) (tr : list event) :
  run choose c s = Some (r, s', tr) → forallb (event_allowed [c]) tr = true.
Proof.
  destruct c; unfold run, void, bind; simpl.
  3-6, 9-14: by intros [= _ _ <-].
  - destruct (timers s !! timer) as [t |] eqn:Ht.
    + rewrite (HarnessFacts.ns_timer_init_some _ _ _ Ht). intros [= _ _ <-].
      simpl. unfold names_timer. simpl. by rewrite !bool_decide_eq_true_2.
    + unfold ns_timer_init, bind. by rewrite (HarnessFacts.store_none _ _ _ _ Ht).
  - destruct (timers s !! timer) as [t |] eqn:Ht.
    + rewrite (HarnessFacts.ns_timer_start_some _ _ _ Ht). intros [= _ _ <-].
      simpl. unfold names_timer. simpl. by rewrite !bool_decide_eq_true_2.
    + unfold ns_timer_start. by rewrite (HarnessFacts.store_none _ _ _ _ Ht).
  - rewrite HarnessFacts.ns_malloc_forwards. by intros [= _ _ <-].
  - rewrite HarnessFacts.ns_free_forwards.
    destruct (host_free p (heap s)); [| discriminate]. by intros [= _ _ <-].
Qed.

(** X3: whatever the client program, the harness never reads memory and
    never stores anything but 0, and it stores only through pointers that
    the program passed to a timer stub: every event of the trace is such a
    store or a call into the host allocator. *)
Theorem program_events_allowed (choose : gmap Z N → N → Z) (l : list call)
    (s s' : State) (rs : list retval) (tr : list event) :
  run_all choose l s = Some (rs, s', tr) →
  forallb (event_allowed l) tr = true.
Proof.
  revert s rs tr. induction l as [| c l IH]; intros s rs tr Hrun.
  - by injection Hrun as _ _ <-.
  - apply run_all_cons_inv in Hrun as (r & s1 & t1 & rs' & t2 & Hc & Hl & _ & ->).
    rewrite forallb_app. apply andb_true_intro. split.
    + apply run_events in Hc. rewrite forallb_forall in *.
      intros e He. apply event_allowed_head. by apply Hc.
    + specialize (IH _ _ _ Hl). rewrite forallb_forall in *.
      intros e He. apply event_allowed_cons. by apply IH.
Qed.

Lemma program_events_allowed_witness :
  forallb (event_allowed [call_ns_timer_init 256; call_ns_malloc 4; call_ns_timer_start 512])
    [EvStore 256 f_start_time 0; EvStore 256 f_duration 0; EvMalloc 4 4096;
     EvStore 512 f_start_time 0] = true.
Proof.
  apply (program_events_allowed bump
           [call_ns_timer_init 256; call_ns_malloc 4; call_ns_timer_start 512]
           sample_state
           (set_heap (<[4096 := 4%N]> ∅)
              (set_timers (<[512 := {| start_time := 0; duration := 9 |}]>
                             (<[256 := {| start_time := 0; duration := 0 |}]>
                                (timers sample_state))) sample_state))
           [RVoid; RPtr 4096; RVoid]).
  vm_compute. reflexivity.
Defined.

(** ** How calls compose *)

Lemma outcome_run_all_two (choose : gmap Z N → N → Z) (c1 c2 : call) (s : State) :
  outcome (run_all choose [c1; c2] s) =
    match outcome (run choose c1 s) with
    | Some (r1, s1) =>
        match outcome (run choose c2 s1) with
        | Some (r2, s2) => Some ([r1; r2], s2)
        | None => None
        end
    | None => None
    end.
Proof.
  simpl. unfold bind, ret.
  destruct (run choose c1 s) as [[[r1 s1] t1] |]; [| reflexivity]. simpl.
  destruct (run choose c2 s1) as [[[r2 s2] t2] |]; reflexivity.
Qed.

Lemma timer_after_comm (c1 c2 : call) (p : Z) (t : ns_timer_t) :
  timer_after [c2] p (timer_after [c1] p t) = timer_after [c1] p (timer_after [c2] p t).
Proof.
  unfold timer_after. simpl. rewrite !orb_false_r.
  destruct (names_timer p c1), (names_timer p c2),
    (inits_timer p c1), (inits_timer p c2); reflexivity.
Qed.

(** X5: two calls to stubs other than [ns_malloc] and [ns_free] can be
    made in either order: both orders fault, or both return, with the same
    results and the same final state.  In particular [ns_timer_init] and
    [ns_timer_start] commute with each other, on the same record or on
    different ones. *)
Theorem independent_calls_commute (choose : gmap Z N → N → Z) (c1 c2 : call) (s : State) :
  is_allocator c1 = false →
  is_allocator c2 = false →
  outcome (run_all choose [c1; c2] s)
  = (λ x, (reverse x.1, x.2)) <$> outcome (run_all choose [c2; c1] s).
Proof.
  intros H1 H2. rewrite !outcome_run_all_two.
  rewrite !(run_non_allocator _ _ _ H1), !(run_non_allocator _ _ _ H2).
  destruct (timer_arg c1) as [p |] eqn:E1, (timer_arg c2) as [q |] eqn:E2;
    cbv beta iota.
  - destruct (timers s !! p) as [t |] eqn:Hp, (timers s !! q) as [t' |] eqn:Hq;
      cbv beta iota;
      rewrite ?(run_non_allocator _ _ _ H1), ?(run_non_allocator _ _ _ H2), ?E1, ?E2;
      cbn [timers set_timers].
    + destruct (decide (p = q)) as [-> | Hne].
      * rewrite !lookup_insert_eq. simpl.
        replace t' with t by congruence.
        by rewrite !insert_insert_eq, timer_after_comm.
      * rewrite !lookup_insert_ne, Hp, Hq by done. simpl.
        by rewrite insert_insert_ne by done.
    + destruct (decide (p = q)) as [-> | Hne]; [congruence |].
      by rewrite lookup_insert_ne, Hq.
    + destruct (decide (p = q)) as [-> | Hne]; [congruence |].
      by rewrite lookup_insert_ne, Hp.
    + reflexivity.
  - destruct (timers s !! p) as [t |] eqn:Hp; cbv beta iota;
      rewrite ?(run_non_allocator _ _ _ H1), ?(run_non_allocator _ _ _ H2), ?E1, ?E2;
      cbn [timers set_timers]; rewrite ?Hp; reflexivity.
  - destruct (timers s !! q) as [t |] eqn:Hq; cbv beta iota;
      rewrite ?(run_non_allocator _ _ _ H1), ?(run_non_allocator _ _ _ H2), ?E1, ?E2;
      cbn [timers set_timers]; rewrite ?Hq; reflexivity.
  - rewrite ?(run_non_allocator _ _ _ H1), ?(run_non_allocator _ _ _ H2), ?E1, ?E2.
    reflexivity.
Qed.

Lemma independent_calls_commute_witness :
  outcome (run_all bump [call_ns_timer_init 256; call_ns_timer_start 256] sample_state)
  = (λ x, (reverse x.1, x.2)) <$>
      outcome (run_all bump [call_ns_timer_start 256; call_ns_timer_init 256] sample_state).
Proof.
  apply (independent_calls_commute bump (call_ns_timer_init 256) (call_ns_timer_start 256));
    reflexivity.
Defined.

End ProgramFacts.

(* ===================================================================== *)
(** * Part VI: the harness header                                         *)
(* ===================================================================== *)

Module HeaderFacts.

Import Cpp HarnessHeader.

(** ** Reading a header *)

Section Reading.

Variable included : string → gmap string tmacro → gmap string tmacro.

Lemma hread_one_HIfndef (x : string) (g : list line) (st : hstate) :
  hread_one included (HIfndef x g) st =
    match henv st !! x with
    | Some _ => st
    | None => hread included g st
    end.
Proof.
  simpl. destruct (henv st !! x); [reflexivity |].
  revert st. induction g as [| l ls IH]; intros st; [reflexivity |].
  simpl. apply IH.
Qed.

Lemma hread_one_HIfdef (x : string) (g : list line) (st : hstate) :
  hread_one included (HIfdef x g) st =
    match henv st !! x with
    | Some _ => hread included g st
    | None => st
    end.
Proof.
  simpl. destruct (henv st !! x); [| reflexivity].
  revert st. induction g as [| l ls IH]; intros st; [reflexivity |].
  simpl. apply IH.
Qed.






Lemma hread_one_linkage (d : decl) (st : hstate) :
  (∀ e, passed e d = d) →
  hread_one included (HIfdef "__cplusplus" [HDecl d]) st
  = {| henv := henv st; hout := hout st ++ linkage d (henv st); hdiags := hdiags st |}.
Proof.
  intros Hd. rewrite hread_one_HIfdef. unfold linkage.
  destruct (henv st !! "__cplusplus").
  - cbn [hread hread_one]. by rewrite Hd.
  - rewrite app_nil_r. by destruct st.
Qed.

(** Declarations of names that are not macros are passed on as they
    are. *)
Lemma map_passed_id (e : gmap string tmacro) (ds : list decl) :
  (∀ x, In x (defined_names ds) → e !! x = None) →
  map (passed e) ds = ds.
Proof.
  induction ds as [| d ds IH]; intros Hnone; [reflexivity |].
  cbn [map]. rewrite IH.
  - f_equal. destruct d as [x | x | x | |]; try reflexivity;
      unfold passed; rewrite (Hnone x); try reflexivity; by left.
  - intros x Hx. apply Hnone.
    destruct d as [y | y | y | |]; try exact Hx; by right.
Qed.

(** ** The harness header *)

(** The file skipped: its guard is defined. *)
Lemma hread_harness_h_again (st : hstate) :
  is_Some (henv st !! "NS_AMBIQSUITE_HARNESS_FVP_H") →
  hread included harness_h st = st.
Proof.
  intros [g Hg]. unfold harness_h. cbn [hread].
  by rewrite hread_one_HIfndef, Hg.
Qed.

(** The file read for the first time, in closed form. *)
Lemma hread_harness_h_first (e : gmap string tmacro) (out : list decl) (dg : list string) :
  e !! "NS_AMBIQSUITE_HARNESS_FVP_H" = None →
  hread included harness_h {| henv := e; hout := out; hdiags := dg |} =
    let a := after_includes included e in
    let a1 := <["ns_lp_printf" := {| tparams := None; tokens := [Id "printf"] |}]> a in
    let a2 := <["NS_PUT_IN_TCM" := {| tparams := None; tokens := [] |}]> a1 in
    let a3 := <["NS_PUT_IN_ITCM" := {| tparams := None; tokens := [] |}]> a2 in
    let a4 := <["NS_PUT_IN_DTCM" := {| tparams := None; tokens := [] |}]> a3 in
    {| henv := a4;
       hout := out ++ linkage LinkageOpen e
               ++ map (passed a1)
                    [ Typedef "ns_timer_t";
                      InlineFunction "ns_timer_init";
                      InlineFunction "ns_timer_start";
                      InlineFunction "ns_core_init";
                      InlineFunction "ns_core_deinit";
                      InlineFunction "ns_power_init";
                      InlineFunction "ns_power_deinit";
                      InlineFunction "ns_malloc";
                      InlineFunction "ns_free";
                      InlineFunction "am_bsp_low_power_init";
                      InlineFunction "am_bsp_low_power_exit";
                      InlineFunction "am_hal_interrupt_master_enable";
                      InlineFunction "am_hal_interrupt_master_disable";
                      InlineFunction "am_hal_sysctrl_sleep";
                      InlineFunction "am_hal_sysctrl_deepsleep" ]
               ++ linkage LinkageClose a4;
       hdiags := dg
                 ++ clashes a "ns_lp_printf" {| tparams := None; tokens := [Id "printf"] |}
                 ++ clashes a1 "NS_PUT_IN_TCM" {| tparams := None; tokens := [] |}
                 ++ clashes a2 "NS_PUT_IN_ITCM" {| tparams := None; tokens := [] |}
                 ++ clashes a3 "NS_PUT_IN_DTCM" {| tparams := None; tokens := [] |} |}.
Proof.
  intros Hg. unfold harness_h. cbn [hread].
  rewrite hread_one_HIfndef. cbn [henv]. rewrite Hg.
  cbn [hread]. rewrite !hread_one_linkage by done.
  cbn [hread_one henv hout hdiags]. cbv zeta.
  fold (after_includes included e).
  unfold clashes at 1. rewrite Hg. rewrite app_nil_r.
  f_equal.
  - unfold linkage at 1. rewrite lookup_insert_ne by done.
    fold (linkage LinkageOpen e). cbn [map]. by rewrite <- !app_assoc.
  - by rewrite <- !app_assoc.
Qed.

(** The declared names are not macros when the declarations are read. *)
Lemma harness_decls_passed (a : gmap string tmacro) (m : tmacro) (ds : list decl) :
  (∀ x, In x (defined_names ds) → a !! x = None) →
  ¬ In "ns_lp_printf"%string (defined_names ds) →
  map (passed (<["ns_lp_printf"%string := m]> a)) ds = ds.
Proof.
  intros Hnone Hnot. apply map_passed_id. intros x Hx.
  rewrite lookup_insert_ne; [by apply Hnone |].
  intros <-. by apply Hnot.
Qed.

Lemma clashes_insert_ne (e : gmap string tmacro) (x y : string) (m m' : tmacro) :
  x ≠ y → clashes (<[y := m']> e) x m = clashes e x m.
Proof. intros Hne. unfold clashes. by rewrite lookup_insert_ne. Qed.

(** X7: what a first read of the harness header passes on and defines.
    With the guard undefined, and none of the fifteen names of the file a
    macro once the four system headers have been read, the compiler sees
    the type [ns_timer_t] and the fourteen stubs, in the order of the file
    and between the two halves of the linkage specification when
    [__cplusplus] is defined; the header leaves [ns_lp_printf] an alias of
    [printf] and the three placement macros empty, whatever they were
    before; and every other macro is as the four system headers left
    it. *)
Theorem harness_h_first_read (e : gmap string tmacro) (out : list decl) (dg : list string) :
  e !! "NS_AMBIQSUITE_HARNESS_FVP_H" = None →
  (∀ x : string,
     In x [ "ns_timer_t"; "ns_timer_init"; "ns_timer_start";
          "ns_core_init"; "ns_core_deinit"; "ns_power_init"; "ns_power_deinit";
          "ns_malloc"; "ns_free";
          "am_bsp_low_power_init"; "am_bsp_low_power_exit";
          "am_hal_interrupt_master_enable"; "am_hal_interrupt_master_disable";
          "am_hal_sysctrl_sleep"; "am_hal_sysctrl_deepsleep" ]%string →
     after_includes included e !! x = None) →
  let st := hread included harness_h {| henv := e; hout := out; hdiags := dg |} in
  hout st = out ++ linkage LinkageOpen e
            ++ [ Typedef "ns_timer_t";
                 InlineFunction "ns_timer_init";
                 InlineFunction "ns_timer_start";
                 InlineFunction "ns_core_init";
                 InlineFunction "ns_core_deinit";
                 InlineFunction "ns_power_init";
                 InlineFunction "ns_power_deinit";
                 InlineFunction "ns_malloc";
                 InlineFunction "ns_free";
                 InlineFunction "am_bsp_low_power_init";
                 InlineFunction "am_bsp_low_power_exit";
                 InlineFunction "am_hal_interrupt_master_enable";
                 InlineFunction "am_hal_interrupt_master_disable";
                 InlineFunction "am_hal_sysctrl_sleep";
                 InlineFunction "am_hal_sysctrl_deepsleep" ]
            ++ linkage LinkageClose (henv st) ∧
  henv st !! "ns_lp_printf" = Some {| tparams := None; tokens := [Id "printf"] |} ∧
  henv st !! "NS_PUT_IN_TCM" = Some {| tparams := None; tokens := [] |} ∧
  henv st !! "NS_PUT_IN_ITCM" = Some {| tparams := None; tokens := [] |} ∧
  henv st !! "NS_PUT_IN_DTCM" = Some {| tparams := None; tokens := [] |} ∧
  (∀ x : string,
     ¬ In x ["ns_lp_printf"; "NS_PUT_IN_TCM"; "NS_PUT_IN_ITCM"; "NS_PUT_IN_DTCM"]%string →
     henv st !! x = after_includes included e !! x).
Proof.
  intros Hg Hnames. cbv zeta. rewrite (hread_harness_h_first e out dg Hg). cbv zeta.
  cbn [henv hout hdiags].
  split.
  { rewrite harness_decls_passed; [reflexivity | exact Hnames |].
    apply (bool_decide_unpack _). vm_compute. exact I. }
  split; [by rewrite !lookup_insert_ne, lookup_insert_eq by done |].
  split; [by rewrite !lookup_insert_ne, lookup_insert_eq by done |].
  split; [by rewrite lookup_insert_ne, lookup_insert_eq by done |].
  split; [by rewrite lookup_insert_eq |].
  intros x Hx. simpl in Hx.
  rewrite !lookup_insert_ne; [reflexivity | intros Heq; apply Hx; subst x; tauto ..].
Qed.

(** X6: which macros a first read of the harness header diagnoses as
    redefined.  The four macros of the file have no guard of their own:
    those of them that are already defined otherwise when the four system
    headers have been read are diagnosed, in the order of the file, and
    nothing else is.  Reading goes on after the diagnostic and the
    definition of the header replaces the earlier one: [ns_lp_printf] is
    [printf] afterwards. *)
Theorem harness_h_macro_clash (e : gmap string tmacro) (out : list decl) (dg : list string) :
  e !! "NS_AMBIQSUITE_HARNESS_FVP_H" = None →
  let a := after_includes included e in
  let st := hread included harness_h {| henv := e; hout := out; hdiags := dg |} in
  hdiags st = dg
              ++ clashes a "ns_lp_printf" {| tparams := None; tokens := [Id "printf"] |}
              ++ clashes a "NS_PUT_IN_TCM" {| tparams := None; tokens := [] |}
              ++ clashes a "NS_PUT_IN_ITCM" {| tparams := None; tokens := [] |}
              ++ clashes a "NS_PUT_IN_DTCM" {| tparams := None; tokens := [] |} ∧
  (∀ m : tmacro,
     a !! "ns_lp_printf" = Some m →
     m ≠ {| tparams := None; tokens := [Id "printf"] |} →
     In "ns_lp_printf"%string (hdiags st) ∧
     henv st !! "ns_lp_printf" = Some {| tparams := None; tokens := [Id "printf"] |}).
Proof.
  intros Hg. cbv zeta. rewrite (hread_harness_h_first e out dg Hg). cbv zeta.
  cbn [henv hout hdiags].
  rewrite !clashes_insert_ne by done.
  split; [reflexivity |].
  intros m Hm Hne. split.
  - apply in_or_app. right. apply in_or_app. left.
    unfold clashes. rewrite Hm. rewrite decide_False by done. by left.
  - by rewrite !lookup_insert_ne, lookup_insert_eq by done.
Qed.

(** X8: the include guard of the harness header.  When the system headers
    leave the macros they find defined and none of the fifteen names of the
    file is a macro, a first read passes on exactly these fifteen names,
    each once, and leaves a state in which a second read of the file
    changes nothing: no declaration is passed on twice and nothing more is
    diagnosed. *)
Theorem harness_h_twice (e : gmap string tmacro) (out : list decl) (dg : list string) :
  (∀ file e0, e0 ⊆ included file e0) →
  e !! "NS_AMBIQSUITE_HARNESS_FVP_H" = None →
  (∀ x : string,
     In x [ "ns_timer_t"; "ns_timer_init"; "ns_timer_start";
          "ns_core_init"; "ns_core_deinit"; "ns_power_init"; "ns_power_deinit";
          "ns_malloc"; "ns_free";
          "am_bsp_low_power_init"; "am_bsp_low_power_exit";
          "am_hal_interrupt_master_enable"; "am_hal_interrupt_master_disable";
          "am_hal_sysctrl_sleep"; "am_hal_sysctrl_deepsleep" ]%string →
     after_includes included e !! x = None) →
  let st := hread included harness_h {| henv := e; hout := out; hdiags := dg |} in
  defined_names (hout st) =
    defined_names out
    ++ [ "ns_timer_t"; "ns_timer_init"; "ns_timer_start";
         "ns_core_init"; "ns_core_deinit"; "ns_power_init"; "ns_power_deinit";
         "ns_malloc"; "ns_free";
         "am_bsp_low_power_init"; "am_bsp_low_power_exit";
         "am_hal_interrupt_master_enable"; "am_hal_interrupt_master_disable";
         "am_hal_sysctrl_sleep"; "am_hal_sysctrl_deepsleep" ]%string ∧
  hread included harness_h st = st.
Proof.
  intros Hkeeps Hg Hnames. cbv zeta.
  rewrite (hread_harness_h_first e out dg Hg). cbv zeta.
  split.
  - cbn [hout]. rewrite harness_decls_passed; [| exact Hnames |].
    + unfold defined_names, linkage. rewrite !omap_app.
      destruct (e !! "__cplusplus"), (_ !! "__cplusplus"); simpl;
        by rewrite ?app_nil_r.
    + apply (bool_decide_unpack _). vm_compute. exact I.
  - apply hread_harness_h_again. cbn [henv].
    rewrite !lookup_insert_ne by done. unfold after_includes.
    exists {| tparams := None; tokens := [] |}.
    do 4 (eapply lookup_weaken; [| apply Hkeeps]).
    apply lookup_insert_eq.
Qed.

End Reading.

Lemma sample_headers_keeps (file : string) (e : gmap string tmacro) :
  e ⊆ sample_headers file e.
Proof. apply map_union_subseteq_l. Qed.

Lemma harness_h_first_read_witness :
  let st := hread sample_headers harness_h
              {| henv := real_harness_env; hout := []; hdiags := [] |} in
  hout st = [ Typedef "ns_timer_t";
              InlineFunction "ns_timer_init";
              InlineFunction "ns_timer_start";
              InlineFunction "ns_core_init";
              InlineFunction "ns_core_deinit";
              InlineFunction "ns_power_init";
              InlineFunction "ns_power_deinit";
              InlineFunction "ns_malloc";
              InlineFunction "ns_free";
              InlineFunction "am_bsp_low_power_init";
              InlineFunction "am_bsp_low_power_exit";
              InlineFunction "am_hal_interrupt_master_enable";
              InlineFunction "am_hal_interrupt_master_disable";
              InlineFunction "am_hal_sysctrl_sleep";
              InlineFunction "am_hal_sysctrl_deepsleep" ] ∧
  henv st !! "ns_lp_printf" = Some {| tparams := None; tokens := [Id "printf"] |} ∧
  henv st !! "INCLUDED_stdio.h" = Some {| tparams := None; tokens := [] |}.
Proof.
  destruct (harness_h_first_read sample_headers real_harness_env [] [] eq_refl)
    as (Hout & Hprintf & _ & _ & _ & Hrest).
  { intros x Hx. simpl in Hx.
    repeat (destruct Hx as [<- | Hx]; [vm_compute; reflexivity |]).
    destruct Hx. }
  split; [| split].
  - etransitivity; [exact Hout |]. vm_compute. reflexivity.
  - exact Hprintf.
  - etransitivity; [apply Hrest |].
    + simpl. intros [H | [H | [H | [H | []]]]]; discriminate H.
    + vm_compute. reflexivity.
Defined.

Lemma harness_h_macro_clash_witness :
  let st := hread sample_headers harness_h
              {| henv := real_harness_env; hout := []; hdiags := [] |} in
  hdiags st = ["ns_lp_printf"%string] ∧
  henv st !! "ns_lp_printf" = Some {| tparams := None; tokens := [Id "printf"] |}.
Proof.
  destruct (harness_h_macro_clash sample_headers real_harness_env [] [] eq_refl)
    as (Hdiags & Hwins).
  split.
  - etransitivity; [exact Hdiags |]. vm_compute. reflexivity.
  - apply (Hwins {| tparams := None; tokens := [Id "am_util_stdio_printf"] |}).
    + vm_compute. reflexivity.
    + discriminate.
Defined.

Lemma harness_h_twice_witness :
  let st := hread sample_headers harness_h
              {| henv := real_harness_env; hout := []; hdiags := [] |} in
  defined_names (hout st) =
    [ "ns_timer_t"; "ns_timer_init"; "ns_timer_start";
      "ns_core_init"; "ns_core_deinit"; "ns_power_init"; "ns_power_deinit";
      "ns_malloc"; "ns_free";
      "am_bsp_low_power_init"; "am_bsp_low_power_exit";
      "am_hal_interrupt_master_enable"; "am_hal_interrupt_master_disable";
      "am_hal_sysctrl_sleep"; "am_hal_sysctrl_deepsleep" ]%string ∧
  hread sample_headers harness_h st = st.
Proof.
  apply (harness_h_twice sample_headers real_harness_env [] []).
  - apply sample_headers_keeps.
  - reflexivity.
  - intros x Hx. simpl in Hx.
    repeat (destruct Hx as [<- | Hx]; [vm_compute; reflexivity |]).
    destruct Hx.
Defined.

End HeaderFacts.

(* ===================================================================== *)
(** * Part VII: more on the guarded macro definitions                     *)
(* ===================================================================== *)

Module CmsisOrder.

Import Cmsis.

Section Order.

Variable included : string → gmap string macro → gmap string macro.

Lemma process_app (l1 l2 : list directive) (e : gmap string macro) :
  process included (l1 ++ l2) e =
    match process included l1 e with
    | Ok e' => process included l2 e'
    | Redefinition x => Redefinition x
    end.
Proof.
  revert e. induction l1 as [| d ds IH]; intros e; [reflexivity |].
  cbn [app process]. destruct (process_one included d e); [apply IH | reflexivity].
Qed.

Lemma shim_name_is_not_the_guard (x : string) (m : macro) :
  In (x, m) shim_defs → x ≠ "CMSIS_H"%string.
Proof.
  intros Hin ->. apply (in_map fst) in Hin.
  apply list_elem_of_In in Hin. revert Hin.
  apply (bool_decide_unpack _). vm_compute. exact I.
Qed.

(** X9: the order of the guarded definitions in the file is immaterial.
    Any rearrangement of the nine [#ifndef] blocks leaves the same macro
    environment, so that the masks being defined before the positions they
    use makes no difference. *)
Theorem guarded_defs_order_irrelevant (ds : list (string * macro))
    (e : gmap string macro) :
  ds ≡ₚ shim_defs →
  process included (map guarded ds) e = process included guarded_defs e.
Proof.
  intros Hperm. unfold guarded_defs.
  rewrite !CmsisFacts.process_guarded_list. f_equal. f_equal.
  symmetry. apply list_to_map_proper; [apply CmsisFacts.shim_names_NoDup | done].
Qed.

(** X10: what a first read of [cmsis.h] defines.  The macros defined
    afterwards are those that were defined when the guards were tested
    together with the nine symbols [CoreDebug], [DWT], the two masks, the
    two positions, [DWT_LAR], [__DSB] and [__ISB]: none of the nine is left
    undefined, and every macro other than the nine is as the two included
    headers left it. *)
Theorem cmsis_h_defines_exactly (e : gmap string macro) :
  e !! "CMSIS_H" = None →
  ∃ e',
    process included cmsis_h e = Ok e' ∧
    dom e' = dom (at_guards included e)
             ∪ list_to_set (C := gset string)
                 [ "CoreDebug"; "DWT";
                   "DWT_CTRL_CYCCNTENA_Msk"; "DWT_CTRL_CYCCNTENA_Pos";
                   "CoreDebug_DEMCR_TRCENA_Msk"; "CoreDebug_DEMCR_TRCENA_Pos";
                   "DWT_LAR"; "__DSB"; "__ISB" ]%string ∧
    (∀ x : string,
       ¬ In x [ "CoreDebug"; "DWT";
                "DWT_CTRL_CYCCNTENA_Msk"; "DWT_CTRL_CYCCNTENA_Pos";
                "CoreDebug_DEMCR_TRCENA_Msk"; "CoreDebug_DEMCR_TRCENA_Pos";
                "DWT_LAR"; "__DSB"; "__ISB" ]%string →
       e' !! x = at_guards included e !! x).
Proof.
  intros Hg. rewrite CmsisFacts.process_cmsis_h, Hg.
  eexists. split; [reflexivity |]. split.
  - rewrite dom_union_L.
    f_equal; unfold shim_env; rewrite dom_list_to_map_L; reflexivity.
  - intros x Hx. rewrite lookup_union.
    assert (Hnone : shim_env !! x = None); [| by rewrite Hnone, (right_id_L None _)].
    unfold shim_env. apply not_elem_of_list_to_map_1.
    intros Hin. apply Hx. by apply list_elem_of_In.
Qed.

End Order.

Section TextOrder.

Import Cpp CmsisText.

Variable headers : string → gmap string tmacro → gmap string tmacro.







End TextOrder.

Lemma guarded_defs_order_irrelevant_witness :
  process sample_included
    (map guarded
       [ ("CoreDebug"%string, CoreDebug_def);
         ("DWT"%string, DWT_def);
         ("DWT_CTRL_CYCCNTENA_Pos"%string, DWT_CTRL_CYCCNTENA_Pos_def);
         ("DWT_CTRL_CYCCNTENA_Msk"%string, DWT_CTRL_CYCCNTENA_Msk_def);
         ("CoreDebug_DEMCR_TRCENA_Pos"%string, CoreDebug_DEMCR_TRCENA_Pos_def);
         ("CoreDebug_DEMCR_TRCENA_Msk"%string, CoreDebug_DEMCR_TRCENA_Msk_def);
         ("DWT_LAR"%string, DWT_LAR_def);
         ("__DSB"%string, DSB_def);
         ("__ISB"%string, ISB_def) ]) vendor_env
  = process sample_included guarded_defs vendor_env.
Proof.
  apply (guarded_defs_order_irrelevant sample_included).
  unfold shim_defs.
  do 2 apply perm_skip. etransitivity; [apply perm_swap |].
  do 2 apply perm_skip. apply perm_swap.
Defined.

Lemma cmsis_h_defines_exactly_witness :
  ∃ e',
    process sample_included cmsis_h vendor_env = Ok e' ∧
    is_Some (e' !! "__ISB") ∧
    is_Some (e' !! "DWT_LAR") ∧
    e' !! "SysTick" = None.
Proof.
  destruct (cmsis_h_defines_exactly sample_included vendor_env eq_refl)
    as (e' & Hrun & Hdom & Hrest).
  exists e'. split; [exact Hrun |]. split; [| split].
  - apply elem_of_dom. rewrite Hdom. apply elem_of_union_r.
    apply (bool_decide_unpack _). vm_compute. exact I.
  - apply elem_of_dom. rewrite Hdom. apply elem_of_union_r.
    apply (bool_decide_unpack _). vm_compute. exact I.
  - etransitivity; [apply Hrest |].
    + simpl. intros H. repeat (destruct H as [H | H]; [discriminate H |]). exact H.
    + vm_compute. reflexivity.
Defined.


End CmsisOrder.
